(** * The snake engine of [main.py]: class [Map] and [move_point]

    A shallow embedding of the game-state engine ([move_point] and the
    class [Map]) and the properties of it that the specification states.

    - Cell values are the module-level integer constants of the source,
      so a cell and a direction are both a [Z].
    - [Map] objects are records; a method is a computation in the monad
      [M], which threads the object together with the tape of raw draws
      that [random.randint] consumes, and which can raise.
    - [place_food] is a [while True] loop around a random draw.  A run is
      given a finite tape of draws; [Starved] is the outcome of a call that
      has used up the whole tape and is still inside the loop. *)

From stdpp Require Import base list strings pretty.
From Stdlib Require Import ZArith Lia QArith_base.

#[local] Open Scope Z_scope.

(** ** Constants *)

Definition EMPTY : Z := 0.
Definition NORTH : Z := 1.
Definition EAST : Z := 2.
Definition SOUTH : Z := 3.
Definition WEST : Z := 4.
Definition NO_DIRECTION : Z := 5.
Definition FOOD : Z := 6.

Definition coord : Type := Z * Z.

(** ** Objects, exceptions and the monad of methods *)

Record Map : Type := mkMap {
  width : Z;
  height : Z;
  grid : list Z;
  head : coord;
  tail : coord;
  length : Z
}.

Definition set_grid (g : list Z) (m : Map) : Map :=
  mkMap (width m) (height m) g (head m) (tail m) (length m).
Definition set_head (p : coord) (m : Map) : Map :=
  mkMap (width m) (height m) (grid m) p (tail m) (length m).
Definition set_tail (p : coord) (m : Map) : Map :=
  mkMap (width m) (height m) (grid m) (head m) p (length m).
Definition set_length (n : Z) (m : Map) : Map :=
  mkMap (width m) (height m) (grid m) (head m) (tail m) n.

Inductive exn : Type :=
| IndexError (p : coord)      (* [raise IndexError(point)] of [_check_point] *)
| IndexError_list             (* a Python list indexed out of its range *)
| ValueError (direction : Z)  (* [raise ValueError('Invalid direction: ..')] *)
| ValueError_randint.         (* [random.randint] on an empty range *)

Definition is_IndexError (e : exn) : bool :=
  match e with
  | IndexError _ | IndexError_list => true
  | _ => false
  end.

(** The object a method runs on, and the draws not yet consumed. *)
Definition state : Type := Map * list Z.

Inductive outcome (A : Type) : Type :=
| Ret (a : A) (s : state)
| Raise (e : exn) (s : state)
| Starved.
Arguments Ret {A} a s.
Arguments Raise {A} e s.
Arguments Starved {A}.

Definition M (A : Type) : Type := state → outcome A.

#[global] Instance M_ret : MRet M := λ A a s, Ret a s.
#[global] Instance M_bind : MBind M := λ A B k c s,
  match c s with
  | Ret a s' => k a s'
  | Raise e s' => Raise e s'
  | Starved => Starved
  end.

Definition raise {A : Type} (e : exn) : M A := λ s, Raise e s.
Definition gets {A : Type} (f : Map → A) : M A := λ s, Ret (f s.1) s.
Definition modify (f : Map → Map) : M unit := λ s, Ret tt (f s.1, s.2).

(** [try: c  except IndexError: ...]; [None] reports that the handler
    is to run. *)
Definition try_IndexError {A : Type} (c : M A) : M (option A) := λ s,
  match c s with
  | Ret a s' => Ret (Some a) s'
  | Raise e s' => if is_IndexError e then Ret None s' else Raise e s'
  | Starved => Starved
  end.

(** ** Python primitives *)

(** [l[i]] and [l[i] = v] on a Python list: an index in [[-len, 0)] counts
    from the end, anything outside [[-len, len)] is an [IndexError]. *)
Definition list_index (l : list Z) (i : Z) : option nat :=
  let n := Z.of_nat (Datatypes.length l) in
  if (0 <=? i) && (i <? n) then Some (Z.to_nat i)
  else if (- n <=? i) && (i <? 0) then Some (Z.to_nat (i + n))
  else None.

Definition list_getitem (l : list Z) (i : Z) : M Z :=
  match list_index l i with
  | Some k => match l !! k with Some v => mret v | None => raise IndexError_list end
  | None => raise IndexError_list
  end.

Definition list_setitem (l : list Z) (i : Z) (v : Z) : M (list Z) :=
  match list_index l i with
  | Some k => mret (<[k:=v]> l)
  | None => raise IndexError_list
  end.

(** [random.randint(a, b)]: the next raw draw of the tape, reduced into
    [[a, b]]; every value of the range is the image of some draw. *)
Definition randint (a b : Z) : M Z := λ s,
  if b <? a then Raise ValueError_randint s
  else match s.2 with
       | [] => Starved
       | r :: tape => Ret (a + r mod (b - a + 1)) (s.1, tape)
       end.

(** [math.floor(n / 2)].  The source divides in floating point; the
    quotient is exact for every [n] below [2^53] in absolute value, which
    covers every grid that can be allocated. *)
Definition floor_half (n : Z) : Z := n / 2.

(** ** [move_point] *)

Definition move_point (point : coord) (direction : Z) : M coord :=
  let '(x, y) := point in
  if direction =? NORTH then mret (x, y - 1)
  else if direction =? EAST then mret (x + 1, y)
  else if direction =? SOUTH then mret (x, y + 1)
  else if direction =? WEST then mret (x - 1, y)
  else if direction =? NO_DIRECTION then mret point
  else raise (ValueError direction).

(** ** class [Map] *)

Definition _check_point (point : coord) : M unit :=
  let '(x, y) := point in
  w ← gets width;
  if (x <? 0) || (x >=? w) then raise (IndexError point)
  else
    h ← gets height;
    if (y <? 0) || (y >=? h) then raise (IndexError point)
    else mret tt.

Definition __getitem__ (point : coord) : M Z :=
  let '(x, y) := point in
  _check_point point;;
  g ← gets grid;
  w ← gets width;
  list_getitem g (y * w + x).

Definition __setitem__ (point : coord) (value : Z) : M unit :=
  let '(x, y) := point in
  _check_point point;;
  g ← gets grid;
  w ← gets width;
  g' ← list_setitem g (y * w + x) value;
  modify (set_grid g').

Definition random_point : M coord :=
  w ← gets width;
  x ← randint 0 (w - 1);
  h ← gets height;
  y ← randint 0 (h - 1);
  mret (x, y).

(** The body of [while True] in [place_food], run at most [fuel] times. *)
Fixpoint place_food_loop (fuel : nat) : M unit :=
  match fuel with
  | O => λ _, Starved
  | S fuel' =>
      point ← random_point;
      v ← __getitem__ point;
      if negb (v =? EMPTY) then place_food_loop fuel'
      else __setitem__ point FOOD
  end.

(** Every iteration consumes two draws, so the loop is given more
    iterations than the tape can pay for: it stops by returning, by
    raising, or by running out of draws. *)
Definition place_food : M unit := λ s,
  place_food_loop (S (Datatypes.length s.2)) s.

Definition check_collision (point : coord) : M bool :=
  r ← try_IndexError (_check_point point);
  match r with
  | None => mret true
  | Some _ =>
      v ← __getitem__ point;
      if v =? FOOD then mret false
      else
        v' ← __getitem__ point;
        if negb (v' =? EMPTY) then mret true
        else mret false
  end.

Definition move (direction : Z) : M (list string) :=
  let events : list string := [] in
  h ← gets head;
  new_point ← move_point h direction;
  c ← check_collision new_point;
  if c : bool then mret (events ++ ["die"%string])
  else
    h ← gets head;
    v ← __getitem__ h;
    (if v =? NO_DIRECTION
     then h ← gets head; __setitem__ h direction
     else mret tt);;
    h ← gets head;
    __setitem__ h direction;;
    modify (set_head new_point);;
    v ← __getitem__ new_point;
    events ←
      (if v =? FOOD
       then
         place_food;;
         n ← gets length;
         modify (set_length (n + 1));;
         mret (events ++ ["eat"%string])
       else
         t ← gets tail;
         d ← __getitem__ t;
         new_tail ← move_point t d;
         t ← gets tail;
         __setitem__ t EMPTY;;
         modify (set_tail new_tail);;
         mret events);
    __setitem__ new_point direction;;
    mret events.

(** [Map(width, height)]: the attribute assignments of [__init__], then
    the loop that fills the list, the head cell and the first food. *)
Definition __init__ (width height : Z) : list Z → outcome unit := λ tape,
  let h := (floor_half width, floor_half height) in
  let self := mkMap width height [] h h 1 in
  (modify (Nat.iter (Z.to_nat (width * height + 1))
             (λ m, set_grid (grid m ++ [EMPTY]) m));;
   h ← gets head;
   __setitem__ h NO_DIRECTION;;
   place_food) (self, tape).

(** ** The variant of [move] the specification proposes

    It keeps only the unconditional write of the head cell. *)
Definition move_single_write (direction : Z) : M (list string) :=
  let events : list string := [] in
  h ← gets head;
  new_point ← move_point h direction;
  c ← check_collision new_point;
  if c : bool then mret (events ++ ["die"%string])
  else
    h ← gets head;
    __setitem__ h direction;;
    modify (set_head new_point);;
    v ← __getitem__ new_point;
    events ←
      (if v =? FOOD
       then
         place_food;;
         n ← gets length;
         modify (set_length (n + 1));;
         mret (events ++ ["eat"%string])
       else
         t ← gets tail;
         d ← __getitem__ t;
         new_tail ← move_point t d;
         t ← gets tail;
         __setitem__ t EMPTY;;
         modify (set_tail new_tail);;
         mret events);
    __setitem__ new_point direction;;
    mret events.

(** ** Walking the body

    From [p], step [n] times by the direction stored in the current cell;
    the result lists the points visited, [p] first. *)
Fixpoint follow (n : nat) (p : coord) : M (list coord) :=
  match n with
  | O => mret [p]
  | S n' =>
      d ← __getitem__ p;
      q ← move_point p d;
      ps ← follow n' q;
      mret (p :: ps)
  end.

(** ** Reachable engine states *)

Inductive reachable : Map → Prop :=
| reachable_init (w h : Z) (tape tape' : list Z) (m : Map) :
    __init__ w h tape = Ret tt (m, tape') → reachable m
| reachable_move (m m' : Map) (d : Z) (tape tape' : list Z) (ev : list string) :
    reachable m → move d (m, tape) = Ret ev (m', tape') → reachable m'.

(** ** Counting cells *)

Definition count_cells (f : Z → bool) (m : Map) : Z :=
  Z.of_nat (Datatypes.length (filter (λ v, f v = true) (grid m))).

Definition is_food (v : Z) : bool := v =? FOOD.
Definition is_nonempty (v : Z) : bool := negb (v =? EMPTY).
Definition is_body (v : Z) : bool := negb (v =? EMPTY) && negb (v =? FOOD).

(** ** Pure readings of the object, used to state and prove properties *)

Definition in_bounds (m : Map) (p : coord) : bool :=
  (0 <=? p.1) && (p.1 <? width m) && (0 <=? p.2) && (p.2 <? height m).

Definition idx (m : Map) (p : coord) : nat := Z.to_nat (p.2 * width m + p.1).

Definition cell (m : Map) (p : coord) : Z := default EMPTY (grid m !! idx m p).

Definition put (p : coord) (v : Z) (m : Map) : Map :=
  set_grid (<[idx m p := v]> (grid m)) m.

(** What [self[p]] evaluates to, when it does not raise. *)
Definition read (m : Map) (p : coord) : option Z :=
  match __getitem__ p (m, []) with
  | Ret v _ => Some v
  | _ => None
  end.

(** [move_point] without the monad. *)
Definition shift (p : coord) (d : Z) : option coord :=
  if d =? NORTH then Some (p.1, p.2 - 1)
  else if d =? EAST then Some (p.1 + 1, p.2)
  else if d =? SOUTH then Some (p.1, p.2 + 1)
  else if d =? WEST then Some (p.1 - 1, p.2)
  else if d =? NO_DIRECTION then Some p
  else None.

Definition collides (m : Map) (p : coord) : bool :=
  negb (in_bounds m p)
  || (negb (cell m p =? FOOD) && negb (cell m p =? EMPTY)).

(** The first pair of draws of the tape that [random_point] turns into an
    Empty cell, with the draws left after it. *)
Fixpoint first_hit (m : Map) (tape : list Z) : option (coord * list Z) :=
  match tape with
  | rx :: ry :: tape' =>
      let p := (rx mod width m, ry mod height m) in
      if cell m p =? EMPTY then Some (p, tape') else first_hit m tape'
  | _ => None
  end.

Definition lucky (m : Map) (tape : list Z) : Prop := is_Some (first_hit m tape).

Definition b2z (b : bool) : Z := if b then 1 else 0.

(** What [move] still has to do once the old head cell is written and
    [head] is advanced: everything from [if self[new_point] == FOOD] on. *)
Definition move_rest (new_point : coord) (direction : Z) : M (list string) :=
  let events : list string := [] in
  v ← __getitem__ new_point;
  events ←
    (if v =? FOOD
     then
       place_food;;
       n ← gets length;
       modify (set_length (n + 1));;
       mret (events ++ ["eat"%string])
     else
       t ← gets tail;
       d ← __getitem__ t;
       new_tail ← move_point t d;
       t ← gets tail;
       __setitem__ t EMPTY;;
       modify (set_tail new_tail);;
       mret events);
  __setitem__ new_point direction;;
  mret events.

(** The grid list has the size [__init__] gives it. *)
Record wf (m : Map) : Prop := {
  wf_width : 1 ≤ width m;
  wf_height : 1 ≤ height m;
  wf_grid : Z.of_nat (Datatypes.length (grid m)) = width m * height m + 1
}.

(** [ps] is a run of occupied cells in which every cell but the last
    points at the next one. *)
Record chain (m : Map) (ps : list coord) : Prop := {
  chain_nodup : NoDup ps;
  chain_in : ∀ p, p ∈ ps → in_bounds m p = true;
  chain_links : ∀ (i : nat) p q,
      ps !! i = Some p → ps !! S i = Some q → shift p (cell m p) = Some q;
  chain_cells : ∀ p, p ∈ ps → cell m p ≠ EMPTY ∧ cell m p ≠ FOOD
}.

(** [ps] is the body of the snake, from the tail to the head. *)
Record body_of (m : Map) (ps : list coord) : Prop := {
  body_length : Z.of_nat (Datatypes.length ps) = length m;
  body_first : ps !! 0%nat = Some (tail m);
  body_last : last ps = Some (head m);
  body_chain : chain m ps
}.

(** The object as [__init__] leaves it before the first food is placed. *)
Definition fresh (w h : Z) : Map :=
  let c := (floor_half w, floor_half h) in
  put c NO_DIRECTION
    (mkMap w h (replicate (Z.to_nat (w * h + 1)) EMPTY) c c 1).

(** The one cell that holds the food. *)
Definition food_at (m : Map) (fp : coord) : Prop :=
  in_bounds m fp = true ∧ cell m fp = FOOD ∧
  ∀ q, in_bounds m q = true → cell m q = FOOD → q = fp.

(** The list has one entry more than the grid has cells; no point is
    mapped to that last entry. *)
Definition spare_empty (m : Map) : Prop :=
  grid m !! Z.to_nat (width m * height m) = Some EMPTY.

Record Inv (m : Map) : Prop := {
  inv_wf : wf m;
  inv_body : ∃ ps, body_of m ps;
  inv_food : count_cells is_food m = 1;
  inv_nonempty : count_cells is_nonempty m = length m + 1
}.

(** Everything that holds of a reachable state. *)
Record Good (m : Map) : Prop := {
  good_inv : Inv m;
  good_food : ∃ fp, food_at m fp;
  good_spare : spare_empty m
}.

(** What [move] does in a state that satisfies the invariant. *)
Inductive move_case (m : Map) (t : list Z) (d : Z) : Prop :=
| case_invalid :
    shift (head m) d = None →
    move d (m, t) = Raise (ValueError d) (m, t) →
    move_case m t d
| case_die np :
    shift (head m) d = Some np → collides m np = true →
    move d (m, t) = Ret ["die"%string] (m, t) →
    move_case m t d
| case_eat np fp t' :
    1 ≤ d ≤ 4 → shift (head m) d = Some np →
    in_bounds m np = true → cell m np = FOOD →
    first_hit m t = Some (fp, t') →
    in_bounds m fp = true → cell m fp = EMPTY →
    move d (m, t) =
      Ret ["eat"%string]
        (put np d (set_length (length m + 1)
           (put fp FOOD (set_head np (put (head m) d m)))), t') →
    move_case m t d
| case_spin np :
    1 ≤ d ≤ 4 → shift (head m) d = Some np →
    in_bounds m np = true → cell m np = FOOD →
    first_hit m t = None →
    move d (m, t) = Starved →
    move_case m t d
| case_plain np nt :
    1 ≤ d ≤ 4 → shift (head m) d = Some np →
    in_bounds m np = true → cell m np = EMPTY →
    shift (tail m) (cell (put (head m) d m) (tail m)) = Some nt →
    move d (m, t) =
      Ret [] (put np d (set_tail nt
                (put (tail m) EMPTY (set_head np (put (head m) d m)))), t) →
    move_case m t d.

(** The walk from the tail that the specification describes: [length - 1]
    steps along the stored directions end on the head, and no cell on the
    way is Empty. *)
Definition path_ok (m : Map) : Prop :=
  ∀ tape, ∃ ps,
    follow (Z.to_nat (length m - 1)) (tail m) (m, tape) = Ret ps (m, tape) ∧
    last ps = Some (head m) ∧
    ∀ p, p ∈ ps → ∃ v, read m p = Some v ∧ v ≠ EMPTY.

(** Some pair of draws is turned by [random_point] into a point other
    than the centre of a [w] by [h] grid. *)
Fixpoint off_center (w h : Z) (tape : list Z) : bool :=
  match tape with
  | rx :: ry :: tape' =>
      negb (bool_decide ((rx mod w, ry mod h) = (floor_half w, floor_half h)))
      || off_center w h tape'
  | _ => false
  end.

(** [ps] is the body, no cell off the body holds a direction, and the cell
    behind the head holds the direction the head cell holds. *)
Record tidy (m : Map) (ps : list coord) : Prop := {
  tidy_body : body_of m ps;
  tidy_off : ∀ q, in_bounds m q = true → q ∉ ps →
                  cell m q = EMPTY ∨ cell m q = FOOD;
  tidy_neck : ∀ (i : nat) p,
      ps !! i = Some p → ps !! S i = Some (head m) →
      cell m p = cell m (head m)
}.

(** ** class [SnakeGUI]

    The window keeps its own attributes and talks to tkinter.  The
    attributes are a record; every call on a tkinter object is recorded,
    in order, in a log, and is taken to return without raising and without
    running another handler.  [loop], which hands control to
    [tkinter.mainloop], is not modelled: the event loop is the sequence of
    handler calls. *)

Inductive tk_call : Type :=
| Tk_new                                  (* tkinter.Tk() *)
| wm_title (title : string)               (* master.wm_title(..) *)
| Canvas_new (width height : Z)           (* tkinter.Canvas(master, ..) *)
| StringVar_new                           (* tkinter.StringVar() *)
| StringVar_set (value : string)          (* pause_button_text.set(..) *)
| Button_new                              (* tkinter.Button(master, ..) *)
| canvas_pack                             (* canvas.pack() *)
| button_pack                             (* pause_button.pack() *)
| button_update                           (* pause_button.update() *)
| button_config (text : string)           (* pause_button.config(text=..) *)
| master_after (ms : Z)                   (* master.after(ms, self._tick) *)
| canvas_delete_all                       (* canvas.delete('all') *)
| canvas_create_rectangle (x0 y0 x1 y1 : Z) (fill : string)
| canvas_create_text (x : Q) (y : Z) (text : string).

Record SnakeGUI : Type := mkGUI {
  scale : Z;
  map : Map;
  text : string;
  __paused : bool;
  direction : Z;
  interval : Z
}.

Definition set_map (m : Map) (g : SnakeGUI) : SnakeGUI :=
  mkGUI (scale g) m (text g) (__paused g) (direction g) (interval g).
Definition set_text (t : string) (g : SnakeGUI) : SnakeGUI :=
  mkGUI (scale g) (map g) t (__paused g) (direction g) (interval g).
Definition set_paused (b : bool) (g : SnakeGUI) : SnakeGUI :=
  mkGUI (scale g) (map g) (text g) b (direction g) (interval g).
Definition set_direction (d : Z) (g : SnakeGUI) : SnakeGUI :=
  mkGUI (scale g) (map g) (text g) (__paused g) d (interval g).
Definition set_interval (i : Z) (g : SnakeGUI) : SnakeGUI :=
  mkGUI (scale g) (map g) (text g) (__paused g) (direction g) i.

(** The window, the log of tkinter calls (oldest first) and the draws
    not yet consumed. *)
Record world : Type := mkWorld {
  gui : SnakeGUI;
  calls : list tk_call;
  draws : list Z
}.

Inductive goutcome (A : Type) : Type :=
| GRet (a : A) (w : world)
| GRaise (e : exn) (w : world)
| GStarved.
Arguments GRet {A} a w.
Arguments GRaise {A} e w.
Arguments GStarved {A}.

Definition G (A : Type) : Type := world → goutcome A.

#[global] Instance G_ret : MRet G := λ A a w, GRet a w.
#[global] Instance G_bind : MBind G := λ A B k c w,
  match c w with
  | GRet a w' => k a w'
  | GRaise e w' => GRaise e w'
  | GStarved => GStarved
  end.

Definition getg {A : Type} (f : SnakeGUI → A) : G A := λ w, GRet (f (gui w)) w.
Definition setg (f : SnakeGUI → SnakeGUI) : G unit := λ w,
  GRet tt (mkWorld (f (gui w)) (calls w) (draws w)).
Definition tk (c : tk_call) : G unit := λ w,
  GRet tt (mkWorld (gui w) (calls w ++ [c]) (draws w)).

(** A method of [self.map], run on the map of the window. *)
Definition on_map {A : Type} (c : M A) : G A := λ w,
  match c (map (gui w), draws w) with
  | Ret a s => GRet a (mkWorld (set_map s.1 (gui w)) (calls w) s.2)
  | Raise e s => GRaise e (mkWorld (set_map s.1 (gui w)) (calls w) s.2)
  | Starved => GStarved
  end.

(** [self.map = Map(width, height)]. *)
Definition new_map (width height : Z) : G unit := λ w,
  match __init__ width height (draws w) with
  | Ret _ s => GRet tt (mkWorld (set_map s.1 (gui w)) (calls w) s.2)
  | Raise e s => GRaise e (mkWorld (gui w) (calls w) s.2)
  | Starved => GStarved
  end.

Definition gtry_IndexError {A : Type} (c : G A) : G (option A) := λ w,
  match c w with
  | GRet a w' => GRet (Some a) w'
  | GRaise e w' => if is_IndexError e then GRet None w' else GRaise e w'
  | GStarved => GStarved
  end.

(** [range(a, b)] and [for x in l: body]. *)
Definition range (a b : Z) : list Z := seqZ a (b - a).

Fixpoint for_each {A : Type} (l : list A) (body : A → G unit) : G unit :=
  match l with
  | [] => mret tt
  | x :: l' => body x;; for_each l' body
  end.

Definition reset : G unit :=
  setg (set_direction NORTH);;
  setg (set_interval 500).

(** The getter and the setter of the property [paused]. *)
Definition paused : G bool := getg __paused.

Definition paused_setter (val : bool) : G unit :=
  setg (set_paused val);;
  p ← getg __paused;
  (if p : bool then tk (StringVar_set "Start")
   else tk (StringVar_set "Pause"));;
  tk button_update.

Definition _draw_point (point : coord) (color : string) : G unit :=
  let '(x, y) := point in
  s ← getg scale;
  tk (canvas_create_rectangle (x * s) (y * s) (x * s + s) (y * s + s) color).

Definition _draw_wall (point : coord) : G unit := _draw_point point "black".
Definition _draw_food (point : coord) : G unit := _draw_point point "blue".
Definition _draw_snake (point : coord) : G unit := _draw_point point "black".

(** The body of the inner loop of [draw]: the [try] block covers the
    drawing calls as well as the read. *)
Definition draw_cell (point : coord) : G unit :=
  r ← gtry_IndexError
         (value ← on_map (__getitem__ point);
          if value =? FOOD then _draw_food point
          else if value >? EMPTY then _draw_snake point
          else mret tt);
  match r with
  | Some _ => mret tt
  | None => _draw_wall point
  end.

(** The text is centred at [width * scale / 2], a float in the source;
    the quotient is kept as a fraction. *)
Definition draw : G unit :=
  tk canvas_delete_all;;
  h ← getg (λ g, height (map g));
  for_each (range (-1) (h + 1)) (λ y,
    w ← getg (λ g, width (map g));
    for_each (range (-1) (w + 1)) (λ x, draw_cell (x, y)));;
  w ← getg (λ g, width (map g));
  s ← getg scale;
  t ← getg text;
  tk (canvas_create_text (Qmake (w * s) 2) 10 t).

Definition on_die : G unit :=
  n ← getg (λ g, length (map g));
  setg (set_text ("Game over! Score: " +:+ pretty (n - 1)));;
  new_map 30 30;;
  reset;;
  paused_setter true;;
  tk (button_config "Pause").

Definition on_eat : G unit :=
  i ← getg interval;
  if i >? 10 then setg (set_interval (i - 10)) else mret tt.

Definition _on_button : G unit :=
  p ← paused;
  paused_setter (negb p);;
  draw.

Record key_event : Type := mkKey { char : string; keysym : string }.

Definition _on_key (event : key_event) : G unit :=
  (if bool_decide (char event = "w") || bool_decide (keysym event = "Up")
   then setg (set_direction NORTH)
   else if bool_decide (char event = "d") || bool_decide (keysym event = "Right")
   then setg (set_direction EAST)
   else if bool_decide (char event = "s") || bool_decide (keysym event = "Down")
   then setg (set_direction SOUTH)
   else if bool_decide (char event = "a") || bool_decide (keysym event = "Left")
   then setg (set_direction WEST)
   else if bool_decide (char event = " ")
   then p ← paused; paused_setter (negb p)
   else mret tt);;
  draw.

Definition _tick : G unit :=
  i ← getg interval;
  tk (master_after i);;
  p ← paused;
  if negb p then
    d ← getg direction;
    events ← on_map (move d);
    for_each events (λ event,
      if bool_decide (event = "eat"%string) then on_eat
      else if bool_decide (event = "die"%string) then on_die
      else mret tt);;
    draw
  else mret tt.

(** [SnakeGUI()].  [text], [__paused], [direction] and [interval] do not
    exist until they are assigned; nothing reads them before, so the
    record starts with placeholders for them. *)
Inductive built : Type :=
| Built (w : world)
| BuildRaise (e : exn)
| BuildStarved.

Definition SnakeGUI__init__ (tape : list Z) : built :=
  match __init__ 30 30 tape with
  | Ret _ s =>
      let self := mkGUI 20 s.1 "" false 0 0 in
      match
        (tk Tk_new;;
         tk (wm_title "Snake");;
         w ← getg (λ g, width (map g));
         sc ← getg scale;
         tk (Canvas_new (w * sc) (w * sc));;
         tk StringVar_new;;
         tk (StringVar_set "Start");;
         tk Button_new;;
         tk canvas_pack;;
         tk button_pack;;
         setg (set_text "");;
         setg (set_paused true);;
         reset) (mkWorld self [] s.2)
      with
      | GRet _ w => Built w
      | GRaise e _ => BuildRaise e
      | GStarved => BuildStarved
      end
  | Raise e _ => BuildRaise e
  | Starved => BuildStarved
  end.

(** The worlds the event loop can be in: the one [SnakeGUI()] builds, and
    the one any handler that returns leaves. *)
Inductive running : world → Prop :=
| running_init tape w : SnakeGUI__init__ tape = Built w → running w
| running_tick w w' : running w → _tick w = GRet tt w' → running w'
| running_key w w' event :
    running w → _on_key event w = GRet tt w' → running w'
| running_button w w' : running w → _on_button w = GRet tt w' → running w'.

(** ** The handlers, with what [update()] dispatches

    [pause_button.update()] enters the event loop of Tk: the handlers that
    are pending run, one after the other, before it returns, and a handler
    that runs there may call [update()] itself.  Which handlers are
    pending is not decided by this program; it is given, like the random
    draws, from outside: a [schedule] lists the handlers one call of
    [update()] runs, each with the schedule of its own call of
    [update()].  A handler calls [update()] at most once: through the
    setter of [paused], which [_on_button] and [_on_key] call once, and
    [_tick] once for a "die" event, of which [move] returns at most
    one.  So each handler takes, as [update], what its call dispatches. *)
Module Nested.

Definition paused_setter (update : G unit) (val : bool) : G unit :=
  setg (set_paused val);;
  p ← getg __paused;
  (if p : bool then tk (StringVar_set "Start")
   else tk (StringVar_set "Pause"));;
  tk button_update;;
  update.

Definition on_die (update : G unit) : G unit :=
  n ← getg (λ g, length (map g));
  setg (set_text ("Game over! Score: " +:+ pretty (n - 1)));;
  new_map 30 30;;
  reset;;
  paused_setter update true;;
  tk (button_config "Pause").

Definition _on_button (update : G unit) : G unit :=
  p ← paused;
  paused_setter update (negb p);;
  draw.

Definition _on_key (update : G unit) (event : key_event) : G unit :=
  (if bool_decide (char event = "w") || bool_decide (keysym event = "Up")
   then setg (set_direction NORTH)
   else if bool_decide (char event = "d")
           || bool_decide (keysym event = "Right")
   then setg (set_direction EAST)
   else if bool_decide (char event = "s")
           || bool_decide (keysym event = "Down")
   then setg (set_direction SOUTH)
   else if bool_decide (char event = "a")
           || bool_decide (keysym event = "Left")
   then setg (set_direction WEST)
   else if bool_decide (char event = " ")
   then p ← paused; paused_setter update (negb p)
   else mret tt);;
  draw.

Definition _tick (update : G unit) : G unit :=
  i ← getg interval;
  tk (master_after i);;
  p ← paused;
  if negb p then
    d ← getg direction;
    events ← on_map (move d);
    for_each events (λ event,
      if bool_decide (event = "eat"%string) then on_eat
      else if bool_decide (event = "die"%string) then on_die update
      else mret tt);;
    draw
  else mret tt.

(** The callbacks registered with Tk: [master.after(.., self._tick)],
    [master.bind('<Key>', self._on_key)] and the button's
    [command=self._on_button]. *)
Inductive handler : Type :=
| Tick
| Key (event : key_event)
| Button.

Definition run_handler (update : G unit) (h : handler) : G unit :=
  match h with
  | Tick => _tick update
  | Key event => _on_key update event
  | Button => _on_button update
  end.

(** What one call of [update()] runs: nothing, or a handler [h], whose
    own [update()] runs [inner], and then the handlers of [next]. *)
Inductive schedule : Type :=
| Quiet
| Run (h : handler) (inner : schedule) (next : schedule).

Fixpoint update (s : schedule) : G unit :=
  match s with
  | Quiet => mret tt
  | Run h inner next => run_handler (update inner) h;; update next
  end.

End Nested.

(** A window whose map is a reachable game and whose direction is one of
    the four. *)
Definition sane (w : world) : Prop :=
  reachable (map (gui w)) ∧ direction (gui w) ∈ [NORTH; EAST; SOUTH; WEST].

(** A computation that, from a sane window, does not raise, leaves a sane
    window and only adds to the log. *)
Definition tame (c : G unit) : Prop :=
  ∀ w, sane w →
    (∀ e w', c w ≠ GRaise e w') ∧
    (∀ w', c w = GRet tt w' →
           sane w' ∧ ∃ cs, calls w' = calls w ++ cs).

(** What [draw_cell] adds to the log. *)
Definition cell_rects (g : SnakeGUI) (p : coord) : list tk_call :=
  let s := scale g in
  let rect := canvas_create_rectangle
                (p.1 * s) (p.2 * s) (p.1 * s + s) (p.2 * s + s) in
  if in_bounds (map g) p then
    if cell (map g) p =? FOOD then [rect "blue"%string]
    else if cell (map g) p >? EMPTY then [rect "black"%string]
    else []
  else [rect "black"%string].

(** The rectangles of one [draw], row by row. *)
Definition picture (g : SnakeGUI) : list tk_call :=
  y ← range (-1) (height (map g) + 1);
  x ← range (-1) (width (map g) + 1);
  cell_rects g (x, y).

(** The calls of one [draw]. *)
Definition drawn (g : SnakeGUI) : list tk_call :=
  canvas_delete_all :: picture g ++
  [canvas_create_text (Qmake (width (map g) * scale g) 2) 10 (text g)].

Definition is_blue (c : tk_call) : bool :=
  match c with
  | canvas_create_rectangle _ _ _ _ fill => bool_decide (fill = "blue"%string)
  | _ => false
  end.

(** [n] calls of a handler in a row. *)
Fixpoint times (n : nat) (c : G unit) : G unit :=
  match n with
  | O => mret tt
  | S n' => c;; times n' c
  end.

(** What every world of the event loop satisfies. *)
Record gui_ok (w : world) : Prop := {
  ok_map : reachable (map (gui w));
  ok_size : width (map (gui w)) = 30 ∧ height (map (gui w)) = 30;
  ok_scale : scale (gui w) = 20;
  ok_direction : direction (gui w) ∈ [NORTH; EAST; SOUTH; WEST];
  ok_interval : 10 ≤ interval (gui w) ≤ 500 ∧ interval (gui w) mod 10 = 0
}.

(** ** Concrete games *)

(** [Map(3, 3)] when the draws put the food in the corner [(0, 0)]. *)
Definition corner33 : Map :=
  mkMap 3 3 [FOOD; 0; 0; 0; NO_DIRECTION; 0; 0; 0; 0; 0] (1, 1) (1, 1) 1.

(** [Map(3, 3)] when the draws put the food at [(1, 0)], north of the head. *)
Definition ahead33 : Map :=
  mkMap 3 3 [0; FOOD; 0; 0; NO_DIRECTION; 0; 0; 0; 0; 0] (1, 1) (1, 1) 1.

(** [corner33] after [move(NORTH)]: the head is on the top row. *)
Definition top33 : Map :=
  mkMap 3 3 [FOOD; NORTH; 0; 0; 0; 0; 0; 0; 0; 0] (1, 0) (1, 0) 1.

(** [Map(1, 2)]: the head is at [(0, 1)] and the only Empty cell gets the
    food. *)
Definition strip12 : Map :=
  mkMap 1 2 [FOOD; NO_DIRECTION; 0] (0, 1) (0, 1) 1.

(** A window on the game [top33], where a step North leaves the grid,
    and a window on [ahead33], where a step North eats. *)
Definition doomed_window : world :=
  mkWorld (mkGUI 20 top33 "" false NORTH 500) [] [1; 1].
Definition hungry_window : world :=
  mkWorld (mkGUI 20 ahead33 "" false NORTH 500) [] [2; 2].

(** A window on the game [corner33], running at the opening speed. *)
Definition small_window : world :=
  mkWorld (mkGUI 20 corner33 "" false NORTH 500) [] [].

(** [ahead33] after [move(NORTH)] has eaten and the draws have put the new
    food at [(2, 2)]. *)
Definition grown33 : Map :=
  mkMap 3 3 [0; NORTH; 0; 0; NORTH; 0; 0; 0; FOOD; 0] (1, 0) (1, 1) 2.

(** [grown33] after [move(WEST)]: a snake of two cells that has turned. *)
Definition turned33 : Map :=
  mkMap 3 3 [WEST; WEST; 0; 0; 0; 0; 0; 0; FOOD; 0] (0, 0) (1, 0) 2.

(** * Proofs *)

#[global] Arguments _check_point : simpl never.
#[global] Arguments __getitem__ : simpl never.
#[global] Arguments __setitem__ : simpl never.
#[global] Arguments move_point : simpl never.
#[global] Arguments random_point : simpl never.
#[global] Arguments place_food : simpl never.
#[global] Arguments check_collision : simpl never.

(** ** Running the monad *)

Lemma run_bind {A B} (c : M A) (k : A → M B) (s : state) :
  (c ≫= k) s =
  match c s with
  | Ret a s' => k a s'
  | Raise e s' => Raise e s'
  | Starved => Starved
  end.
Proof. reflexivity. Qed.

Lemma run_bind_Ret {A B} (c : M A) (k : A → M B) s a s' :
  c s = Ret a s' → (c ≫= k) s = k a s'.
Proof. intros H. rewrite run_bind, H. reflexivity. Qed.

Lemma run_bind_Raise {A B} (c : M A) (k : A → M B) s e s' :
  c s = Raise e s' → (c ≫= k) s = Raise e s'.
Proof. intros H. rewrite run_bind, H. reflexivity. Qed.

Lemma run_bind_Starved {A B} (c : M A) (k : A → M B) s :
  c s = Starved → (c ≫= k) s = Starved.
Proof. intros H. rewrite run_bind, H. reflexivity. Qed.

Lemma run_gets {A B} (f : Map → A) (k : A → M B) m t :
  (gets f ≫= k) (m, t) = k (f m) (m, t).
Proof. reflexivity. Qed.

Lemma run_modify {B} (f : Map → Map) (k : unit → M B) m t :
  (modify f ≫= k) (m, t) = k tt (f m, t).
Proof. reflexivity. Qed.

(** ** Bounds and indices *)

Lemma in_bounds_spec m p :
  in_bounds m p = true ↔ 0 ≤ p.1 < width m ∧ 0 ≤ p.2 < height m.
Proof. unfold in_bounds. rewrite !andb_true_iff. lia. Qed.

Lemma in_bounds_false m p :
  in_bounds m p = false ↔ ¬ (0 ≤ p.1 < width m ∧ 0 ≤ p.2 < height m).
Proof. rewrite <- in_bounds_spec. destruct (in_bounds m p); naive_solver. Qed.

Lemma idx_lt m p :
  wf m → in_bounds m p = true → (idx m p < Datatypes.length (grid m) - 1)%nat.
Proof.
  intros [Hw Hh Hg] [Hx Hy]%in_bounds_spec. unfold idx.
  assert (p.2 * width m + p.1 < width m * height m) by nia.
  assert (0 ≤ p.2 * width m + p.1) by nia.
  lia.
Qed.

Lemma idx_inj m p q :
  in_bounds m p = true → in_bounds m q = true → idx m p = idx m q → p = q.
Proof.
  intros [Hx Hy]%in_bounds_spec [Hx' Hy']%in_bounds_spec. unfold idx. intros E.
  destruct p as [x y], q as [x' y']; simpl in *.
  assert (y * width m + x = y' * width m + x') as E' by nia.
  assert (y = y') by nia. subst. f_equal. lia.
Qed.

Lemma check_point_run m t p :
  _check_point p (m, t) =
  if in_bounds m p then Ret tt (m, t) else Raise (IndexError p) (m, t).
Proof.
  destruct p as [x y]. unfold _check_point, in_bounds. rewrite run_gets. simpl.
  destruct (x <? 0) eqn:E1, (x >=? width m) eqn:E2,
    (0 <=? x) eqn:E3, (x <? width m) eqn:E4; try lia; simpl; try reflexivity.
  rewrite run_gets.
  destruct (y <? 0) eqn:E5, (y >=? height m) eqn:E6,
    (0 <=? y) eqn:E7, (y <? height m) eqn:E8; try lia; simpl; reflexivity.
Qed.

Lemma list_index_in m p :
  wf m → in_bounds m p = true →
  list_index (grid m) (p.2 * width m + p.1) = Some (idx m p).
Proof.
  intros Hwf Hin. pose proof (idx_lt m p Hwf Hin) as Hlt.
  apply in_bounds_spec in Hin. destruct Hwf as [Hw Hh Hg].
  unfold list_index, idx in *.
  assert (0 ≤ p.2 * width m + p.1) by nia.
  destruct (0 <=? _) eqn:E1; [|lia].
  destruct (_ <? _) eqn:E2; [reflexivity|lia].
Qed.

Lemma getitem_in m t p :
  wf m → in_bounds m p = true → __getitem__ p (m, t) = Ret (cell m p) (m, t).
Proof.
  intros Hwf Hin. pose proof (idx_lt m p Hwf Hin) as Hlt.
  unfold __getitem__. destruct p as [x y].
  rewrite run_bind, check_point_run, Hin, !run_gets.
  pose proof (list_index_in m (x, y) Hwf Hin) as Hix. simpl in Hix.
  unfold list_getitem. rewrite Hix.
  unfold cell. destruct (grid m !! idx m (x, y)) eqn:E; [reflexivity|].
  apply lookup_ge_None in E. lia.
Qed.

Lemma getitem_out {m t p} :
  in_bounds m p = false → __getitem__ p (m, t) = Raise (IndexError p) (m, t).
Proof.
  intros Hout. unfold __getitem__. destruct p as [x y].
  rewrite run_bind, check_point_run, Hout. reflexivity.
Qed.

Lemma setitem_in m t p v :
  wf m → in_bounds m p = true → __setitem__ p v (m, t) = Ret tt (put p v m, t).
Proof.
  intros Hwf Hin. unfold __setitem__. destruct p as [x y].
  rewrite run_bind, check_point_run, Hin, !run_gets.
  pose proof (list_index_in m (x, y) Hwf Hin) as Hix. simpl in Hix.
  unfold list_setitem. rewrite Hix.
  reflexivity.
Qed.

Lemma setitem_out m t p v :
  in_bounds m p = false → __setitem__ p v (m, t) = Raise (IndexError p) (m, t).
Proof.
  intros Hout. unfold __setitem__. destruct p as [x y].
  rewrite run_bind, check_point_run, Hout. reflexivity.
Qed.

Lemma read_in m p : wf m → in_bounds m p = true → read m p = Some (cell m p).
Proof. intros Hwf Hin. unfold read. rewrite getitem_in; done. Qed.

Lemma read_out m p : in_bounds m p = false → read m p = None.
Proof. intros Hout. unfold read. rewrite getitem_out; done. Qed.

Lemma read_Some m p v :
  wf m → read m p = Some v ↔ in_bounds m p = true ∧ cell m p = v.
Proof.
  intros Hwf. destruct (in_bounds m p) eqn:E.
  - rewrite read_in by done. split; [intros [= <-]|intros [_ <-]]; done.
  - rewrite read_out by done. split; [done|intros [? _]; done].
Qed.

Lemma move_point_run p d s :
  move_point p d s =
  match shift p d with Some q => Ret q s | None => Raise (ValueError d) s end.
Proof.
  destruct p as [x y]. unfold move_point, shift. simpl.
  repeat (destruct (d =? _); [reflexivity|]). reflexivity.
Qed.

(** ** Writing a cell *)

Lemma width_put p v m : width (put p v m) = width m.
Proof. reflexivity. Qed.
Lemma height_put p v m : height (put p v m) = height m.
Proof. reflexivity. Qed.
Lemma head_put p v m : head (put p v m) = head m.
Proof. reflexivity. Qed.
Lemma tail_put p v m : tail (put p v m) = tail m.
Proof. reflexivity. Qed.
Lemma length_put p v m : length (put p v m) = length m.
Proof. reflexivity. Qed.
Lemma in_bounds_put p v m q : in_bounds (put p v m) q = in_bounds m q.
Proof. reflexivity. Qed.

Lemma wf_put p v m : wf m → wf (put p v m).
Proof.
  intros [Hw Hh Hg]. split; [done|done|].
  unfold put. simpl. rewrite length_insert. done.
Qed.

Lemma cell_put_eq m p v : wf m → in_bounds m p = true → cell (put p v m) p = v.
Proof.
  intros Hwf Hin. pose proof (idx_lt m p Hwf Hin).
  unfold cell, put, idx in *. simpl. rewrite list_lookup_insert_eq by lia. done.
Qed.

Lemma cell_put_ne m p q v :
  in_bounds m p = true → in_bounds m q = true → p ≠ q →
  cell (put p v m) q = cell m q.
Proof.
  intros Hp Hq Hne. unfold cell, put. simpl.
  change (idx (set_grid _ m) q) with (idx m q).
  rewrite list_lookup_insert_ne; [done|].
  intros E. apply Hne. eapply idx_inj; eauto.
Qed.

(** ** Counting *)

Lemma count_insert (f : Z → bool) (l : list Z) (i : nat) (old v : Z) :
  l !! i = Some old →
  Z.of_nat (Datatypes.length (filter (λ v, f v = true) (<[i:=v]> l))) =
  Z.of_nat (Datatypes.length (filter (λ v, f v = true) l)) - b2z (f old) + b2z (f v).
Proof.
  revert i. induction l as [|a l IH]; intros [|i] Hl; simplify_eq/=.
  - rewrite !filter_cons.
    destruct (decide (f old = true)) as [->|Ho%not_true_is_false],
      (decide (f v = true)) as [->|Hv%not_true_is_false];
      rewrite ?Ho, ?Hv; simpl; lia.
  - rewrite !filter_cons. specialize (IH i Hl).
    destruct (decide (f a = true)); simpl; lia.
Qed.

Lemma count_put f m p v :
  wf m → in_bounds m p = true →
  count_cells f (put p v m) = count_cells f m - b2z (f (cell m p)) + b2z (f v).
Proof.
  intros Hwf Hin. pose proof (idx_lt m p Hwf Hin) as Hlt.
  unfold count_cells, put, cell. simpl.
  destruct (grid m !! idx m p) as [old|] eqn:E.
  - simpl. by apply count_insert.
  - apply lookup_ge_None in E. lia.
Qed.

Lemma count_replicate_EMPTY f n :
  f EMPTY = false →
  filter (λ v, f v = true) (replicate n EMPTY) = [].
Proof.
  intros Hf. induction n as [|n IH]; [done|].
  simpl. rewrite filter_cons, IH. rewrite decide_False; [done|]. congruence.
Qed.

Lemma count_set_head f p m : count_cells f (set_head p m) = count_cells f m.
Proof. reflexivity. Qed.
Lemma count_set_tail f p m : count_cells f (set_tail p m) = count_cells f m.
Proof. reflexivity. Qed.
Lemma count_set_length f n m : count_cells f (set_length n m) = count_cells f m.
Proof. reflexivity. Qed.

(** ** [random_point] and [place_food] *)

Lemma randint_run a b m r tape :
  a ≤ b → randint a b (m, r :: tape) = Ret (a + r mod (b - a + 1)) (m, tape).
Proof. intros Hab. unfold randint. destruct (b <? a) eqn:E; [lia|done]. Qed.

Lemma randint_nil a b m : a ≤ b → randint a b (m, []) = Starved.
Proof. intros Hab. unfold randint. destruct (b <? a) eqn:E; [lia|done]. Qed.

Lemma random_point_run m rx ry tape :
  wf m →
  random_point (m, rx :: ry :: tape) =
  Ret (rx mod width m, ry mod height m) (m, tape).
Proof.
  intros [Hw Hh _]. unfold random_point. rewrite run_gets.
  erewrite run_bind_Ret by (apply randint_run; lia).
  rewrite run_gets.
  erewrite run_bind_Ret by (apply randint_run; lia).
  rewrite !Z.sub_0_r, !Z.sub_add. reflexivity.
Qed.

Lemma random_point_short m tape :
  wf m → (Datatypes.length tape < 2)%nat → random_point (m, tape) = Starved.
Proof.
  intros [Hw Hh _] Hlen. unfold random_point. rewrite run_gets.
  destruct tape as [|rx [|ry tape]]; simpl in *; [| |lia].
  - by erewrite run_bind_Starved by (apply randint_nil; lia).
  - erewrite run_bind_Ret by (apply randint_run; lia).
    rewrite run_gets.
    by erewrite run_bind_Starved by (apply randint_nil; lia).
Qed.

Lemma random_point_in_bounds m rx ry :
  wf m → in_bounds m (rx mod width m, ry mod height m) = true.
Proof.
  intros [Hw Hh _]. apply in_bounds_spec. simpl.
  pose proof (Z.mod_pos_bound rx (width m)).
  pose proof (Z.mod_pos_bound ry (height m)). lia.
Qed.

Lemma place_food_loop_run m fuel tape :
  wf m → (Datatypes.length tape < fuel)%nat →
  place_food_loop fuel (m, tape) =
  match first_hit m tape with
  | Some (p, tape') => Ret tt (put p FOOD m, tape')
  | None => Starved
  end.
Proof.
  intros Hwf. revert tape.
  induction fuel as [|fuel IH]; intros tape Hlen; [lia|].
  destruct tape as [|rx [|ry tape]].
  - simpl. rewrite run_bind, random_point_short by (done || simpl; lia). done.
  - simpl. rewrite run_bind, random_point_short by (done || simpl; lia). done.
  - cbn [place_food_loop first_hit].
    rewrite run_bind, random_point_run by done.
    pose proof (random_point_in_bounds m rx ry Hwf) as Hin.
    rewrite run_bind, getitem_in by done.
    destruct (cell m _ =? EMPTY) eqn:E; simpl.
    + by rewrite setitem_in.
    + apply IH. simpl in Hlen. lia.
Qed.

Lemma place_food_run m tape :
  wf m →
  place_food (m, tape) =
  match first_hit m tape with
  | Some (p, tape') => Ret tt (put p FOOD m, tape')
  | None => Starved
  end.
Proof. intros Hwf. unfold place_food. apply place_food_loop_run; simpl; [done|lia]. Qed.

(** The tape is read two draws at a time. *)
Lemma tape_pair_ind (P : list Z → Prop) :
  P [] → (∀ r, P [r]) → (∀ rx ry tape, P tape → P (rx :: ry :: tape)) →
  ∀ tape, P tape.
Proof.
  intros H0 H1 H2 tape.
  cut (P tape ∧ ∀ r, P (r :: tape)); [by intros [? _]|].
  induction tape as [|r tape [IH1 IH2]]; [by split|].
  split; [apply IH2|]. intros r'. by apply H2.
Qed.

Lemma first_hit_spec m tape p tape' :
  wf m → first_hit m tape = Some (p, tape') →
  in_bounds m p = true ∧ cell m p = EMPTY.
Proof.
  intros Hwf. revert tape'.
  induction tape as [|r|rx ry tape IH] using tape_pair_ind;
    intros tape'; simpl; [done|done|].
  destruct (cell m _ =? EMPTY) eqn:E.
  - intros [= <- <-]. split; [by apply random_point_in_bounds|lia].
  - apply IH.
Qed.

Lemma first_hit_ext m m' tape :
  width m' = width m → height m' = height m →
  (∀ p, in_bounds m p = true → (cell m' p = EMPTY ↔ cell m p = EMPTY)) →
  wf m →
  first_hit m' tape = first_hit m tape.
Proof.
  intros Hw Hh Hc Hwf.
  induction tape as [|r|rx ry tape IH] using tape_pair_ind; simpl; [done|done|].
  rewrite Hw, Hh.
  pose proof (Hc _ (random_point_in_bounds m rx ry Hwf)) as Hc'.
  rewrite IH.
  destruct (cell m' _ =? EMPTY) eqn:E1, (cell m _ =? EMPTY) eqn:E2; try done; lia.
Qed.

Lemma first_hit_full m tape :
  wf m → (∀ p, in_bounds m p = true → cell m p ≠ EMPTY) →
  first_hit m tape = None.
Proof.
  intros Hwf Hfull. destruct (first_hit m tape) as [[p tape']|] eqn:E; [|done].
  apply first_hit_spec in E as [Hin Hc]; [|done]. by apply Hfull in Hin.
Qed.

Lemma first_hit_point m p tape :
  in_bounds m p = true → cell m p = EMPTY →
  first_hit m (p.1 :: p.2 :: tape) = Some (p, tape).
Proof.
  intros [Hx Hy]%in_bounds_spec Hc. simpl.
  rewrite !Z.mod_small by lia. rewrite <- surjective_pairing, Hc. done.
Qed.

(** ** [check_collision] *)

Lemma check_collision_run m t p :
  wf m → check_collision p (m, t) = Ret (collides m p) (m, t).
Proof.
  intros Hwf. unfold check_collision, collides.
  rewrite run_bind. unfold try_IndexError. rewrite check_point_run.
  destruct (in_bounds m p) eqn:Hin; simpl; [|reflexivity].
  rewrite run_bind, getitem_in by done.
  destruct (cell m p =? FOOD); simpl; [reflexivity|].
  rewrite run_bind, getitem_in by done.
  destruct (cell m p =? EMPTY); reflexivity.
Qed.

(** ** [move], case by case *)

Lemma put_put p v m : put p v (put p v m) = put p v m.
Proof.
  unfold put. simpl. change (idx (set_grid _ m) p) with (idx m p).
  unfold set_grid. simpl. by rewrite list_insert_insert_eq.
Qed.

Lemma move_invalid m t d :
  shift (head m) d = None → move d (m, t) = Raise (ValueError d) (m, t).
Proof.
  intros Hs. unfold move. rewrite run_gets, run_bind, move_point_run, Hs. done.
Qed.

Lemma move_collide m t d np :
  wf m → shift (head m) d = Some np → collides m np = true →
  move d (m, t) = Ret ["die"%string] (m, t).
Proof.
  intros Hwf Hs Hc. unfold move.
  rewrite run_gets, run_bind, move_point_run, Hs.
  rewrite run_bind, check_collision_run, Hc by done. done.
Qed.

Lemma move_advance m t d np :
  wf m → in_bounds m (head m) = true →
  shift (head m) d = Some np → collides m np = false →
  move d (m, t) = move_rest np d (set_head np (put (head m) d m), t).
Proof.
  intros Hwf Hh Hs Hc. unfold move.
  rewrite run_gets, run_bind, move_point_run, Hs.
  rewrite run_bind, check_collision_run, Hc by done.
  rewrite run_gets, run_bind, getitem_in by done.
  destruct (cell m (head m) =? NO_DIRECTION).
  - rewrite run_bind, run_gets, setitem_in by done.
    rewrite run_gets. change (head (put (head m) d m)) with (head m).
    rewrite run_bind, setitem_in by (done || by apply wf_put).
    rewrite put_put, run_modify. reflexivity.
  - rewrite run_bind. unfold mret at 1, M_ret at 1.
    rewrite run_gets, run_bind, setitem_in by done.
    rewrite run_modify. reflexivity.
Qed.

Lemma move_rest_plain m t d np nt :
  wf m → in_bounds m np = true → in_bounds m (tail m) = true →
  cell m np ≠ FOOD → shift (tail m) (cell m (tail m)) = Some nt →
  move_rest np d (m, t) =
  Ret [] (put np d (set_tail nt (put (tail m) EMPTY m)), t).
Proof.
  intros Hwf Hnp Ht Hc Hs. unfold move_rest.
  rewrite run_bind, getitem_in by done.
  destruct (cell m np =? FOOD) eqn:E; [lia|].
  rewrite run_bind, run_gets, run_bind, getitem_in by done.
  rewrite run_bind, move_point_run, Hs.
  rewrite run_gets, run_bind, setitem_in by done.
  rewrite run_modify.
  unfold mret at 1, M_ret at 1.
  rewrite run_bind, setitem_in; [done| |done].
  destruct Hwf. split; simpl; rewrite ?length_insert; done.
Qed.

Lemma move_rest_eat m t d np :
  wf m → in_bounds m np = true → cell m np = FOOD →
  move_rest np d (m, t) =
  match first_hit m t with
  | Some (fp, t') =>
      Ret ["eat"%string]
        (put np d (set_length (length m + 1) (put fp FOOD m)), t')
  | None => Starved
  end.
Proof.
  intros Hwf Hnp Hc. unfold move_rest.
  rewrite run_bind, getitem_in by done.
  rewrite Hc. change (FOOD =? FOOD) with true. cbv iota.
  rewrite run_bind, run_bind, place_food_run by done.
  destruct (first_hit m t) as [[fp t']|]; [|done].
  rewrite run_gets, run_modify.
  change (length (put fp FOOD m)) with (length m).
  unfold mret at 1, M_ret at 1.
  rewrite run_bind, setitem_in; [done| |done].
  destruct Hwf. split; simpl; rewrite ?length_insert; done.
Qed.

(** ** Chains of body cells *)

Lemma chain_snoc m m' ps h d np :
  chain m ps → last ps = Some h →
  width m' = width m → height m' = height m →
  (∀ p, p ∈ ps → p ≠ h → cell m' p = cell m p) →
  cell m' h = d → shift h d = Some np →
  np ∉ ps → in_bounds m np = true →
  cell m' np ≠ EMPTY → cell m' np ≠ FOOD →
  d ≠ EMPTY → d ≠ FOOD →
  chain m' (ps ++ [np]).
Proof.
  intros [Hnd Hin Hlk Hcl] Hlast Hw Hh Hsame Hd Hs Hnp Hnpin Hne Hnf Hde Hdf.
  assert (Hb : ∀ p, in_bounds m' p = in_bounds m p)
    by (intros p; unfold in_bounds; by rewrite Hw, Hh).
  rewrite last_lookup in Hlast.
  split.
  - apply NoDup_app. split_and!; [done| |apply NoDup_singleton].
    intros p Hp ->%list_elem_of_singleton. done.
  - intros p [Hp| ->%list_elem_of_singleton]%elem_of_app; rewrite Hb; auto.
  - intros i p q Hp Hq.
    assert (i < Datatypes.length ps)%nat as Hi.
    { apply lookup_lt_Some in Hq. rewrite length_app in Hq. simpl in Hq. lia. }
    rewrite lookup_app_l in Hp by done.
    destruct (decide (S i < Datatypes.length ps)%nat) as [Hlt|Hge].
    + rewrite lookup_app_l in Hq by done.
      rewrite Hsame; [by eapply Hlk|by eapply list_elem_of_lookup_2|].
      intros ->. pose proof (NoDup_lookup _ _ _ _ Hnd Hp Hlast). lia.
    + assert (i = pred (Datatypes.length ps)) as -> by lia.
      rewrite Hlast in Hp. injection Hp as <-.
      rewrite lookup_app_r in Hq by lia.
      replace (S (pred (Datatypes.length ps)) - Datatypes.length ps)%nat
        with 0%nat in Hq by lia.
      injection Hq as <-. by rewrite Hd.
  - intros p [Hp| ->%list_elem_of_singleton]%elem_of_app; [|done].
    destruct (decide (p = h)) as [->|Hph]; [by rewrite Hd|].
    rewrite Hsame by done. by apply Hcl.
Qed.

Lemma chain_drop m m' t rest :
  chain m (t :: rest) →
  width m' = width m → height m' = height m →
  (∀ p, p ∈ rest → cell m' p = cell m p) →
  chain m' rest.
Proof.
  intros [Hnd Hin Hlk Hcl] Hw Hh Hsame.
  assert (Hb : ∀ p, in_bounds m' p = in_bounds m p)
    by (intros p; unfold in_bounds; by rewrite Hw, Hh).
  apply NoDup_cons in Hnd as [Ht Hnd].
  split.
  - done.
  - intros p Hp. rewrite Hb. apply Hin. by right.
  - intros i p q Hp Hq. rewrite Hsame by (by eapply list_elem_of_lookup_2).
    by apply (Hlk (S i)).
  - intros p Hp. rewrite Hsame by done. apply Hcl. by right.
Qed.

Lemma chain_one m p :
  in_bounds m p = true → cell m p ≠ EMPTY → cell m p ≠ FOOD → chain m [p].
Proof.
  intros Hin Hne Hnf. split.
  - apply NoDup_singleton.
  - by intros q ->%list_elem_of_singleton.
  - intros i q r _ Hr. by destruct i.
  - by intros q ->%list_elem_of_singleton.
Qed.

Lemma body_head m ps :
  body_of m ps →
  head m ∈ ps ∧ in_bounds m (head m) = true ∧
  cell m (head m) ≠ EMPTY ∧ cell m (head m) ≠ FOOD.
Proof.
  intros [_ _ Hl [_ Hin _ Hcl]].
  assert (head m ∈ ps) as Hh by (by apply last_Some_elem_of).
  split_and!; [done|by apply Hin|by apply Hcl..].
Qed.

Lemma body_tail m ps :
  body_of m ps →
  tail m ∈ ps ∧ in_bounds m (tail m) = true ∧
  cell m (tail m) ≠ EMPTY ∧ cell m (tail m) ≠ FOOD.
Proof.
  intros [_ Hf _ [_ Hin _ Hcl]].
  assert (tail m ∈ ps) as Hh by (by eapply list_elem_of_lookup_2).
  split_and!; [done|by apply Hin|by apply Hcl..].
Qed.

Lemma shift_dir p d q :
  shift p d = Some q → q ≠ p → 1 ≤ d ≤ 4.
Proof.
  unfold shift, NORTH, EAST, SOUTH, WEST, NO_DIRECTION. intros Hs Hne.
  destruct (d =? 1) eqn:E1; [lia|]. destruct (d =? 2) eqn:E2; [lia|].
  destruct (d =? 3) eqn:E3; [lia|]. destruct (d =? 4) eqn:E4; [lia|].
  destruct (d =? 5) eqn:E5; [|done]. by injection Hs as <-.
Qed.

Lemma collides_false m p :
  collides m p = false ↔
  in_bounds m p = true ∧ (cell m p = FOOD ∨ cell m p = EMPTY).
Proof.
  unfold collides. destruct (in_bounds m p); simpl;
    [|split; [done|intros [? _]; done]].
  destruct (cell m p =? FOOD) eqn:E1, (cell m p =? EMPTY) eqn:E2; simpl;
    split; try done; try (intros _; split; [done|lia]).
  intros [_ [?|?]]; lia.
Qed.

(** ** The cells after a move *)

Lemma wf_set_head p m : wf m → wf (set_head p m).
Proof. by intros []. Qed.
Lemma wf_set_tail p m : wf m → wf (set_tail p m).
Proof. by intros []. Qed.
Lemma wf_set_length n m : wf m → wf (set_length n m).
Proof. by intros []. Qed.

Create HintDb snake.
#[local] Hint Resolve wf_put wf_set_head wf_set_tail wf_set_length : snake.

(** Side conditions of the cell lemmas: the object is well formed, and a
    point in bounds stays so when cells and fields are written. *)
Ltac bounds :=
  solve [ auto 10 with snake
        | match goal with
          | H : in_bounds _ ?p = true |- in_bounds _ ?p = true => exact H
          end ].

Lemma cell_put m p q v :
  wf m → in_bounds m p = true → in_bounds m q = true →
  cell (put p v m) q = if decide (q = p) then v else cell m q.
Proof.
  intros Hwf Hp Hq. destruct (decide (q = p)) as [->|Hne].
  - by apply cell_put_eq.
  - by apply cell_put_ne.
Qed.

Lemma cell_plain m h t np nt d q :
  wf m → in_bounds m h = true → in_bounds m t = true →
  in_bounds m np = true → in_bounds m q = true →
  cell (put np d (set_tail nt (put t EMPTY (set_head np (put h d m))))) q =
  if decide (q = np) then d
  else if decide (q = t) then EMPTY
  else if decide (q = h) then d
  else cell m q.
Proof.
  intros Hwf Hh Ht Hnp Hq.
  rewrite (cell_put (set_tail nt (put t EMPTY (set_head np (put h d m)))))
    by auto with snake.
  destruct (decide (q = np)); [done|].
  change (cell (set_tail nt (put t EMPTY (set_head np (put h d m)))) q)
    with (cell (put t EMPTY (set_head np (put h d m))) q).
  rewrite (cell_put (set_head np (put h d m))) by auto with snake.
  destruct (decide (q = t)); [done|].
  change (cell (set_head np (put h d m)) q) with (cell (put h d m) q).
  by rewrite cell_put.
Qed.

Lemma cell_eat m h fp np n d q :
  wf m → in_bounds m h = true → in_bounds m fp = true →
  in_bounds m np = true → in_bounds m q = true →
  cell (put np d (set_length n (put fp FOOD (set_head np (put h d m))))) q =
  if decide (q = np) then d
  else if decide (q = fp) then FOOD
  else if decide (q = h) then d
  else cell m q.
Proof.
  intros Hwf Hh Hfp Hnp Hq.
  rewrite (cell_put (set_length n (put fp FOOD (set_head np (put h d m)))))
    by auto with snake.
  destruct (decide (q = np)); [done|].
  change (cell (set_length n (put fp FOOD (set_head np (put h d m)))) q)
    with (cell (put fp FOOD (set_head np (put h d m))) q).
  rewrite (cell_put (set_head np (put h d m))) by auto with snake.
  destruct (decide (q = fp)); [done|].
  change (cell (set_head np (put h d m)) q) with (cell (put h d m) q).
  by rewrite cell_put.
Qed.

(** ** The invariant is established by [__init__] *)

Lemma iter_append n m :
  Nat.iter n (λ m, set_grid (grid m ++ [EMPTY]) m) m =
  set_grid (grid m ++ replicate n EMPTY) m.
Proof.
  induction n as [|n IH]; simpl.
  - rewrite app_nil_r. by destruct m.
  - rewrite IH. unfold set_grid. simpl. f_equal.
    rewrite <- app_assoc. f_equal.
    change (EMPTY :: replicate n EMPTY) with (replicate (S n) EMPTY).
    by rewrite replicate_S_end.
Qed.

Lemma init_run w h tape :
  1 ≤ w → 1 ≤ h →
  __init__ w h tape =
  match first_hit (fresh w h) tape with
  | Some (fp, tape') => Ret tt (put fp FOOD (fresh w h), tape')
  | None => Starved
  end.
Proof.
  intros Hw Hh. unfold __init__. cbv zeta.
  rewrite run_modify, iter_append. simpl app.
  set (m0 := set_grid _ _).
  assert (wf m0) as Hwf0.
  { split; simpl; [done|done|]. rewrite length_replicate. nia. }
  assert (in_bounds m0 (floor_half w, floor_half h) = true) as Hc.
  { apply in_bounds_spec. simpl. unfold floor_half.
    pose proof (Z.div_pos w 2). pose proof (Z.div_lt w 2).
    pose proof (Z.div_pos h 2). pose proof (Z.div_lt h 2). lia. }
  rewrite run_gets, run_bind, setitem_in by done.
  rewrite place_food_run by auto with snake. reflexivity.
Qed.

Lemma init_small w h tape :
  ¬ (1 ≤ w ∧ 1 ≤ h) →
  ∃ s, __init__ w h tape = Raise (IndexError (floor_half w, floor_half h)) s.
Proof.
  intros Hwh. unfold __init__. cbv zeta.
  rewrite run_modify, iter_append, run_gets, run_bind. eexists.
  rewrite setitem_out; [reflexivity|].
  apply in_bounds_false. simpl. unfold floor_half. intros [Hx Hy].
  assert (0 < w) by (destruct (decide (0 < w)); [done|];
    pose proof (Z.div_le_upper_bound w 2 0); lia).
  assert (0 < h) by (destruct (decide (0 < h)); [done|];
    pose proof (Z.div_le_upper_bound h 2 0); lia).
  lia.
Qed.

Lemma fresh_wf w h : 1 ≤ w → 1 ≤ h → wf (fresh w h).
Proof.
  intros Hw Hh. unfold fresh. cbv zeta. apply wf_put.
  split; simpl; [done|done|]. rewrite length_replicate. nia.
Qed.

Lemma fresh_center w h :
  1 ≤ w → 1 ≤ h → in_bounds (fresh w h) (floor_half w, floor_half h) = true.
Proof.
  intros Hw Hh. apply in_bounds_spec. simpl. unfold floor_half.
  pose proof (Z.div_pos w 2). pose proof (Z.div_lt w 2).
  pose proof (Z.div_pos h 2). pose proof (Z.div_lt h 2). lia.
Qed.

Lemma cell_blank w h c1 c2 n k q :
  cell (mkMap w h (replicate k EMPTY) c1 c2 n) q = EMPTY.
Proof.
  unfold cell. simpl.
  destruct (replicate k EMPTY !! _) as [v|] eqn:E; [|done].
  by apply lookup_replicate in E as [-> _].
Qed.

Lemma fresh_cell w h q :
  1 ≤ w → 1 ≤ h → in_bounds (fresh w h) q = true →
  cell (fresh w h) q =
  if decide (q = (floor_half w, floor_half h)) then NO_DIRECTION else EMPTY.
Proof.
  intros Hw Hh Hq. pose proof (fresh_center w h Hw Hh) as Hc.
  unfold fresh. cbv zeta. rewrite cell_put; [|split; simpl|done..].
  - by rewrite cell_blank.
  - done.
  - done.
  - rewrite length_replicate. nia.
Qed.

Lemma fresh_count f w h :
  1 ≤ w → 1 ≤ h → f EMPTY = false →
  count_cells f (fresh w h) = b2z (f NO_DIRECTION).
Proof.
  intros Hw Hh Hf. pose proof (fresh_center w h Hw Hh) as Hc.
  unfold fresh. cbv zeta. rewrite count_put; [|split; simpl|done].
  - rewrite cell_blank, Hf. unfold count_cells. simpl.
    rewrite count_replicate_EMPTY by done. simpl. lia.
  - done.
  - done.
  - rewrite length_replicate. nia.
Qed.

Lemma Inv_first_food w h fp :
  1 ≤ w → 1 ≤ h →
  in_bounds (fresh w h) fp = true → cell (fresh w h) fp = EMPTY →
  Inv (put fp FOOD (fresh w h)).
Proof.
  intros Hw Hh Hin Hc.
  pose proof (fresh_wf w h Hw Hh) as Hwf.
  pose proof (fresh_center w h Hw Hh) as Hcen.
  assert (fp ≠ (floor_half w, floor_half h)) as Hne.
  { intros ->. rewrite fresh_cell in Hc by done.
    by rewrite decide_True in Hc. }
  split.
  - by apply wf_put.
  - exists [(floor_half w, floor_half h)]. split; [done..|].
    assert (cell (put fp FOOD (fresh w h)) (floor_half w, floor_half h)
            = NO_DIRECTION) as Hv.
    { rewrite cell_put_ne, fresh_cell by done. by rewrite decide_True. }
    apply chain_one; [done|by rewrite Hv..].
  - rewrite count_put, fresh_count, Hc by done. reflexivity.
  - rewrite count_put, fresh_count, Hc by done. reflexivity.
Qed.

Lemma Inv_init w h tape tape' m :
  __init__ w h tape = Ret tt (m, tape') → Inv m.
Proof.
  intros Hrun. destruct (decide (1 ≤ w ∧ 1 ≤ h)) as [[Hw Hh]|Hsmall].
  - rewrite init_run in Hrun by done.
    destruct (first_hit (fresh w h) tape) as [[fp t']|] eqn:E; [|done].
    injection Hrun as <- <-.
    apply first_hit_spec in E as [Hin Hc]; [|by apply fresh_wf].
    by apply Inv_first_food.
  - destruct (init_small w h tape Hsmall) as [s Hs]. congruence.
Qed.

(** ** The invariant is preserved by [move] *)

Lemma is_food_false v : v ≠ FOOD → is_food v = false.
Proof. unfold is_food. intros Hv. destruct (v =? FOOD) eqn:E; [lia|done]. Qed.

Lemma is_nonempty_true v : v ≠ EMPTY → is_nonempty v = true.
Proof.
  unfold is_nonempty. intros Hv. destruct (v =? EMPTY) eqn:E; [lia|done].
Qed.

Ltac count_arith :=
  repeat case_decide;
  change (is_food FOOD) with true;
  change (is_nonempty EMPTY) with false;
  rewrite ?is_food_false, ?is_nonempty_true
    by (done || (unfold EMPTY, FOOD; lia));
  unfold b2z; lia.

Lemma Inv_plain m ps d np :
  Inv m → body_of m ps →
  shift (head m) d = Some np → in_bounds m np = true → cell m np = EMPTY →
  ∃ nt,
    shift (tail m) (cell (put (head m) d m) (tail m)) = Some nt ∧
    Inv (put np d (set_tail nt
           (put (tail m) EMPTY (set_head np (put (head m) d m))))).
Proof.
  intros [Hwf _ Hfood Hcount] Hbody Hs Hnp Hc.
  destruct (body_head m ps Hbody) as (Hhps & Hh & Hhe & Hhf).
  destruct (body_tail m ps Hbody) as (Htps & Ht & Hte & Htf).
  destruct Hbody as [Hlen Hfirst Hlast Hch].
  assert (np ∉ ps) as Hnps.
  { intros Hin. by apply (chain_cells _ _ Hch) in Hin as [? _]. }
  assert (np ≠ head m) as Hnh by (by intros ->).
  assert (np ≠ tail m) as Hnt by (by intros ->).
  pose proof (shift_dir _ _ _ Hs Hnh) as Hd.
  destruct ps as [|t rest]; [done|]. simpl in Hfirst. injection Hfirst as ->.
  (* the snake with its new head, before the tail cell is cleared *)
  set (mA := put np d (put (head m) d m)).
  assert (chain mA ((tail m :: rest) ++ [np])) as HchA.
  { eapply (chain_snoc m mA _ (head m) d np); try done.
    - intros p Hp Hne. unfold mA.
      pose proof (chain_in _ _ Hch p Hp) as Hpin.
      rewrite !cell_put by bounds.
      rewrite !decide_False; [done..|]. by intros ->.
    - unfold mA. rewrite !cell_put by bounds.
      by rewrite decide_False, decide_True.
    - unfold mA. rewrite cell_put_eq by bounds.
      unfold EMPTY. lia.
    - unfold mA. rewrite cell_put_eq by bounds.
      unfold FOOD. lia.
    - unfold EMPTY. lia.
    - unfold FOOD. lia. }
  assert (∃ nt, (rest ++ [np]) !! 0%nat = Some nt ∧
                shift (tail m) (cell (put (head m) d m) (tail m)) = Some nt)
    as (nt & Hnt0 & Hsnt).
  { destruct rest as [|r rest].
    - exists np. split; [done|].
      simpl in Hlast. injection Hlast as Hth. rewrite Hth.
      by rewrite cell_put_eq.
    - exists r. split; [done|].
      assert (tail m ≠ head m) as Hne.
      { intros E. pose proof (chain_nodup _ _ Hch) as Hnd.
        apply NoDup_cons in Hnd as [Hnin _]. apply Hnin.
        rewrite E. apply last_Some_elem_of. by rewrite last_cons_cons in Hlast. }
      rewrite cell_put_ne by done.
      by apply (chain_links _ _ Hch 0%nat). }
  exists nt. split; [done|].
  set (m5 := put np d _).
  assert (∀ q, in_bounds m q = true →
            cell m5 q = if decide (q = np) then d
                        else if decide (q = tail m) then EMPTY
                        else if decide (q = head m) then d else cell m q)
    as Hcell by (intros q Hq; by apply cell_plain).
  split.
  - unfold m5. bounds.
  - exists (rest ++ [np]). split.
    + change (length m5) with (length m). rewrite <- Hlen.
      rewrite length_app. simpl. lia.
    + done.
    + by rewrite last_snoc.
    + apply (chain_drop mA m5 (tail m) (rest ++ [np])); [done..|].
      intros p Hp.
      assert (p ≠ tail m) as Hpt.
      { intros ->. pose proof (chain_nodup _ _ HchA) as Hnd.
        simpl in Hnd. by apply NoDup_cons in Hnd as [? _]. }
      assert (in_bounds m p = true) as Hpin.
      { apply (chain_in _ _ HchA). by right. }
      rewrite Hcell by done. unfold mA.
      rewrite !cell_put by bounds.
      by rewrite (decide_False (P := p = tail m)).
  - unfold m5.
    rewrite (count_put _ (set_tail nt _)) by bounds.
    rewrite count_set_tail.
    rewrite (count_put _ (set_head np _)) by bounds.
    rewrite count_set_head.
    rewrite (count_put _ m) by done.
    change (cell (set_tail nt ?x) np) with (cell x np).
    rewrite (cell_put (set_head np _)) by bounds.
    change (cell (set_head np ?x)) with (cell x).
    rewrite !cell_put by bounds.
    rewrite !(decide_False (P := np = _)) by done. rewrite Hc.
    count_arith.
  - unfold m5.
    rewrite (count_put _ (set_tail nt _)) by bounds.
    rewrite count_set_tail.
    rewrite (count_put _ (set_head np _)) by bounds.
    rewrite count_set_head.
    rewrite (count_put _ m) by done.
    change (cell (set_tail nt ?x) np) with (cell x np).
    rewrite (cell_put (set_head np _)) by bounds.
    change (cell (set_head np ?x)) with (cell x).
    rewrite !cell_put by bounds.
    rewrite !(decide_False (P := np = _)) by done. rewrite Hc.
    change (length (put np d _)) with (length m).
    count_arith.
Qed.

Lemma Inv_eat m ps d np fp :
  Inv m → body_of m ps →
  shift (head m) d = Some np → in_bounds m np = true → cell m np = FOOD →
  in_bounds m fp = true → cell m fp = EMPTY →
  Inv (put np d (set_length (length m + 1)
         (put fp FOOD (set_head np (put (head m) d m))))).
Proof.
  intros [Hwf _ Hfood Hcount] Hbody Hs Hnp Hc Hfp Hfc.
  destruct (body_head m ps Hbody) as (Hhps & Hh & Hhe & Hhf).
  destruct Hbody as [Hlen Hfirst Hlast Hch].
  assert (np ∉ ps) as Hnps.
  { intros Hin. by apply (chain_cells _ _ Hch) in Hin as [_ ?]. }
  assert (fp ∉ ps) as Hfps.
  { intros Hin. by apply (chain_cells _ _ Hch) in Hin as [? _]. }
  assert (np ≠ head m) as Hnh by (by intros ->).
  assert (fp ≠ head m) as Hfh by (by intros ->).
  assert (fp ≠ np) as Hfn by (intros ->; unfold EMPTY, FOOD in *; lia).
  pose proof (shift_dir _ _ _ Hs Hnh) as Hd.
  set (m5 := put np d _).
  assert (∀ q, in_bounds m q = true →
            cell m5 q = if decide (q = np) then d
                        else if decide (q = fp) then FOOD
                        else if decide (q = head m) then d else cell m q)
    as Hcell by (intros q Hq; by apply cell_eat).
  split.
  - unfold m5. bounds.
  - exists (ps ++ [np]). split.
    + change (length m5) with (length m + 1). rewrite <- Hlen.
      rewrite length_app. simpl. lia.
    + rewrite lookup_app_l; [done|]. by eapply lookup_lt_Some.
    + by rewrite last_snoc.
    + eapply (chain_snoc m m5 ps (head m) d np); try done.
      * intros p Hp Hne. rewrite Hcell by (by eapply chain_in).
        repeat case_decide; congruence.
      * rewrite Hcell by done. repeat case_decide; congruence.
      * rewrite Hcell, decide_True by done. unfold EMPTY; lia.
      * rewrite Hcell, decide_True by done. unfold FOOD; lia.
      * unfold EMPTY; lia.
      * unfold FOOD; lia.
  - unfold m5.
    rewrite (count_put _ (set_length _ _)) by bounds.
    rewrite count_set_length.
    rewrite (count_put _ (set_head np _)) by bounds.
    rewrite count_set_head.
    rewrite (count_put _ m) by done.
    change (cell (set_length ?n ?x) np) with (cell x np).
    rewrite (cell_put (set_head np _)) by bounds.
    change (cell (set_head np ?x)) with (cell x).
    rewrite !cell_put by bounds.
    rewrite !decide_False by done. rewrite Hc, Hfc.
    count_arith.
  - unfold m5.
    rewrite (count_put _ (set_length _ _)) by bounds.
    rewrite count_set_length.
    rewrite (count_put _ (set_head np _)) by bounds.
    rewrite count_set_head.
    rewrite (count_put _ m) by done.
    change (cell (set_length ?n ?x) np) with (cell x np).
    rewrite (cell_put (set_head np _)) by bounds.
    change (cell (set_head np ?x)) with (cell x).
    rewrite !cell_put by bounds.
    rewrite !decide_False by done. rewrite Hc, Hfc.
    change (length (put np d _)) with (length m + 1).
    count_arith.
Qed.

Lemma move_cases m t d : Inv m → move_case m t d.
Proof.
  intros HInv. pose proof HInv as [Hwf [ps Hbody] Hfood Hcount].
  destruct (body_head m ps Hbody) as (Hhps & Hh & Hhe & Hhf).
  destruct (body_tail m ps Hbody) as (Htps & Ht & Hte & Htf).
  destruct (shift (head m) d) as [np|] eqn:Hs;
    [|by apply case_invalid, move_invalid].
  destruct (collides m np) eqn:Hcol;
    [by eapply case_die, move_collide|].
  pose proof Hcol as [Hnp Hv]%collides_false.
  assert (np ≠ head m) as Hnh by (intros ->; by destruct Hv).
  pose proof (shift_dir _ _ _ Hs Hnh) as Hd.
  pose proof (move_advance m t d np Hwf Hh Hs Hcol) as Hmove.
  set (m2 := set_head np (put (head m) d m)) in *.
  assert (wf m2) as Hwf2 by (unfold m2; bounds).
  assert (cell m2 np = cell m np) as Hnp2
    by (unfold m2; change (cell (set_head np ?x)) with (cell x);
        by rewrite cell_put_ne).
  destruct Hv as [Hfoodc|Hemp].
  - assert (first_hit m2 t = first_hit m t) as Hfh.
    { apply first_hit_ext; [done..| |done]. intros p Hp. unfold m2.
      change (cell (set_head np ?x)) with (cell x).
      rewrite cell_put by done. case_decide as E; [|done].
      subst p. unfold EMPTY in *. split; [lia|done]. }
    rewrite move_rest_eat in Hmove by (done || congruence).
    rewrite Hfh in Hmove.
    destruct (first_hit m t) as [[fp t']|] eqn:Hhit.
    + apply first_hit_spec in Hhit as Hfp; [|done]. destruct Hfp.
      by eapply case_eat.
    + by eapply case_spin.
  - destruct (Inv_plain m ps d np HInv Hbody Hs Hnp Hemp) as (nt & Hnt & _).
    eapply case_plain; try done.
    rewrite Hmove.
    apply (move_rest_plain m2 t d np nt); try done.
    rewrite Hnp2, Hemp. unfold EMPTY, FOOD. lia.
Qed.

Lemma Inv_move m t d ev m' t' :
  Inv m → move d (m, t) = Ret ev (m', t') → Inv m'.
Proof.
  intros HInv Hrun. pose proof HInv as [Hwf [ps Hbody] Hfood Hcount].
  destruct (move_cases m t d HInv)
    as [Hs Hm|np Hs Hc Hm|np fp t1 Hd Hs Hnp Hc Hhit Hfp Hfc Hm
       |np Hd Hs Hnp Hc Hhit Hm|np nt Hd Hs Hnp Hc Hnt Hm];
    rewrite Hm in Hrun; try done.
  - by injection Hrun as _ <- _.
  - injection Hrun as _ <- _. by eapply Inv_eat.
  - injection Hrun as _ <- _.
    destruct (Inv_plain m ps d np HInv Hbody Hs Hnp Hc) as (nt' & Hnt' & HI).
    rewrite Hnt in Hnt'. by injection Hnt' as <-.
Qed.

(** ** Where the food is, and the spare entry of the list *)

Lemma spare_put p v m :
  wf m → in_bounds m p = true → spare_empty m → spare_empty (put p v m).
Proof.
  intros Hwf Hin Hsp. pose proof (idx_lt m p Hwf Hin) as Hlt.
  unfold spare_empty, put in *. simpl.
  rewrite list_lookup_insert_ne; [done|].
  destruct Hwf as [Hw Hh Hg]. nia.
Qed.

Lemma spare_first_food w h fp :
  1 ≤ w → 1 ≤ h → in_bounds (fresh w h) fp = true →
  spare_empty (put fp FOOD (fresh w h)).
Proof.
  intros Hw Hh Hfp. apply spare_put; [by apply fresh_wf|done|].
  pose proof (fresh_center w h Hw Hh) as Hc.
  unfold fresh. cbv zeta. apply spare_put; [|done|].
  - split; simpl; [done|done|]. rewrite length_replicate. nia.
  - unfold spare_empty. simpl. apply lookup_replicate_2. nia.
Qed.

Lemma food_first_food w h fp :
  1 ≤ w → 1 ≤ h →
  in_bounds (fresh w h) fp = true → cell (fresh w h) fp = EMPTY →
  food_at (put fp FOOD (fresh w h)) fp.
Proof.
  intros Hw Hh Hfp Hc. pose proof (fresh_wf w h Hw Hh) as Hwf.
  split_and!; [done|by apply cell_put_eq|].
  intros q Hq. rewrite cell_put by done. case_decide; [done|].
  rewrite fresh_cell by done. case_decide; unfold NO_DIRECTION, EMPTY, FOOD; lia.
Qed.

Lemma food_plain m ps d np nt fp :
  wf m → body_of m ps → food_at m fp →
  1 ≤ d ≤ 4 → in_bounds m np = true → cell m np = EMPTY →
  food_at (put np d (set_tail nt
             (put (tail m) EMPTY (set_head np (put (head m) d m))))) fp.
Proof.
  intros Hwf Hbody (Hfp & Hfc & Huniq) Hd Hnp Hc.
  destruct (body_head m ps Hbody) as (_ & Hh & Hhe & Hhf).
  destruct (body_tail m ps Hbody) as (_ & Ht & Hte & Htf).
  split_and!; [done| |].
  - rewrite cell_plain by done.
    repeat case_decide; subst; unfold EMPTY, FOOD in *; try done; lia.
  - intros q Hq. rewrite cell_plain by done.
    repeat case_decide; unfold EMPTY, FOOD in *; try lia. by apply Huniq.
Qed.

Lemma food_eat m ps d np n fp :
  wf m → body_of m ps → food_at m np →
  1 ≤ d ≤ 4 → in_bounds m fp = true → cell m fp = EMPTY →
  food_at (put np d (set_length n
             (put fp FOOD (set_head np (put (head m) d m))))) fp.
Proof.
  intros Hwf Hbody (Hnp & Hc & Huniq) Hd Hfp Hfc.
  destruct (body_head m ps Hbody) as (_ & Hh & Hhe & Hhf).
  split_and!; [done| |].
  - rewrite cell_eat by done.
    repeat case_decide; subst; unfold EMPTY, FOOD in *; try done; lia.
  - intros q Hq. rewrite cell_eat by done.
    repeat case_decide; unfold EMPTY, FOOD in *; try done; try lia.
    intros Hqf. by apply Huniq in Hqf.
Qed.

Lemma Good_init w h tape tape' m :
  __init__ w h tape = Ret tt (m, tape') → Good m.
Proof.
  intros Hrun. split; [by eapply Inv_init|..];
    (destruct (decide (1 ≤ w ∧ 1 ≤ h)) as [[Hw Hh]|Hsmall];
     [|destruct (init_small w h tape Hsmall) as [s Hs]; congruence]);
    rewrite init_run in Hrun by done;
    (destruct (first_hit (fresh w h) tape) as [[fp t']|] eqn:E; [|done]);
    injection Hrun as <- <-;
    (apply first_hit_spec in E as [Hin Hc]; [|by apply fresh_wf]).
  - exists fp. by apply food_first_food.
  - by apply spare_first_food.
Qed.

Lemma Good_move m t d ev m' t' :
  Good m → move d (m, t) = Ret ev (m', t') → Good m'.
Proof.
  intros [HInv [fp0 Hfood0] Hsp] Hrun.
  split; [by eapply Inv_move|..];
    pose proof HInv as [Hwf [ps Hbody] _ _];
    destruct (body_head m ps Hbody) as (_ & Hh & _);
    destruct (body_tail m ps Hbody) as (_ & Ht & _);
    (destruct (move_cases m t d HInv)
      as [Hs Hm|np Hs Hc Hm|np fp t1 Hd Hs Hnp Hc Hhit Hfp Hfc Hm
         |np Hd Hs Hnp Hc Hhit Hm|np nt Hd Hs Hnp Hc Hnt Hm];
     rewrite Hm in Hrun; try done; injection Hrun as _ <- _).
  - by exists fp0.
  - exists fp. eapply food_eat; try done.
    assert (np = fp0) as -> by (by apply Hfood0). done.
  - exists fp0. by eapply food_plain.
  - done.
  - apply (spare_put _ _ (set_length _ _)); [bounds|bounds|].
    apply (spare_put _ _ (set_head _ _)); [bounds|bounds|].
    by apply spare_put.
  - apply (spare_put _ _ (set_tail _ _)); [bounds|bounds|].
    apply (spare_put _ _ (set_head _ _)); [bounds|bounds|].
    by apply spare_put.
Qed.

Lemma reachable_Good m : reachable m → Good m.
Proof.
  induction 1 as [w h tape tape' m Hinit|m m' d tape tape' ev _ IH Hmove].
  - by eapply Good_init.
  - by eapply Good_move.
Qed.

(** ** Walking the body *)

Lemma follow_chain m t ps p :
  wf m → chain m ps → ps !! 0%nat = Some p →
  follow (pred (Datatypes.length ps)) p (m, t) = Ret ps (m, t).
Proof.
  intros Hwf. revert p. induction ps as [|a ps IH]; intros p Hch Hp; [done|].
  simpl in Hp. injection Hp as ->.
  destruct ps as [|b ps]; [done|].
  change (pred (Datatypes.length (p :: b :: ps)))
    with (S (pred (Datatypes.length (b :: ps)))).
  cbn [follow].
  rewrite run_bind, getitem_in; [|done|apply (chain_in _ _ Hch); by left].
  rewrite run_bind, move_point_run.
  rewrite (chain_links _ _ Hch 0%nat p b) by done.
  rewrite run_bind, (IH b); [done| |done].
  eapply (chain_drop m m p); [done..|]. done.
Qed.

(** ** The concrete games are reachable *)

Lemma corner33_init : __init__ 3 3 [0; 0] = Ret tt (corner33, []).
Proof. reflexivity. Qed.

Lemma ahead33_init : __init__ 3 3 [1; 0] = Ret tt (ahead33, []).
Proof. reflexivity. Qed.

Lemma strip12_init : __init__ 1 2 [0; 0] = Ret tt (strip12, []).
Proof. reflexivity. Qed.

Lemma corner33_reachable : reachable corner33.
Proof. eapply reachable_init, corner33_init. Qed.

Lemma ahead33_reachable : reachable ahead33.
Proof. eapply reachable_init, ahead33_init. Qed.

Lemma top33_step : move NORTH (corner33, []) = Ret [] (top33, []).
Proof. reflexivity. Qed.

Lemma top33_reachable : reachable top33.
Proof. eapply reachable_move; [apply corner33_reachable|apply top33_step]. Qed.

Lemma strip12_reachable : reachable strip12.
Proof. eapply reachable_init, strip12_init. Qed.

(** ** Concrete runs *)

Example run_eat :
  move NORTH (ahead33, [2; 2]) =
  Ret ["eat"%string]
    (mkMap 3 3 [0; NORTH; 0; 0; NORTH; 0; 0; 0; FOOD; 0] (1, 0) (1, 1) 2, []).
Proof. reflexivity. Qed.

Example run_into_body :
  move SOUTH
    (mkMap 3 3 [0; NORTH; 0; 0; NORTH; 0; 0; 0; FOOD; 0] (1, 0) (1, 1) 2, []) =
  Ret ["die"%string]
    (mkMap 3 3 [0; NORTH; 0; 0; NORTH; 0; 0; 0; FOOD; 0] (1, 0) (1, 1) 2, []).
Proof. reflexivity. Qed.

Example run_follow :
  follow 1 (1, 1)
    (mkMap 3 3 [0; NORTH; 0; 0; NORTH; 0; 0; 0; FOOD; 0] (1, 0) (1, 1) 2, []) =
  Ret [(1, 1); (1, 0)]
    (mkMap 3 3 [0; NORTH; 0; 0; NORTH; 0; 0; 0; FOOD; 0] (1, 0) (1, 1) 2, []).
Proof. reflexivity. Qed.

Example run_wrong_size : ∃ s, __init__ 0 3 [] = Raise (IndexError (0, 1)) s.
Proof. by eexists. Qed.

(** ** Directions *)

Lemma dir_range d : d ∈ [NORTH; EAST; SOUTH; WEST] ↔ 1 ≤ d ≤ 4.
Proof.
  rewrite !elem_of_cons, elem_of_nil. unfold NORTH, EAST, SOUTH, WEST. lia.
Qed.

Lemma move_point_Ret p d s q s' :
  move_point p d s = Ret q s' ↔ shift p d = Some q ∧ s' = s.
Proof.
  rewrite move_point_run. destruct (shift p d) as [q'|].
  - split; [by intros [= <- <-]|by intros [[= <-] <-]].
  - split; [done|by intros [? _]].
Qed.

(** ** Counting the body *)

Lemma count_split (l : list Z) :
  Z.of_nat (Datatypes.length (filter (λ v, is_nonempty v = true) l)) =
  Z.of_nat (Datatypes.length (filter (λ v, is_food v = true) l)) +
  Z.of_nat (Datatypes.length (filter (λ v, is_body v = true) l)).
Proof.
  induction l as [|a l IH]; [done|]. rewrite !filter_cons.
  unfold is_nonempty, is_food, is_body in *.
  destruct (a =? EMPTY) eqn:E1, (a =? FOOD) eqn:E2;
    try (unfold EMPTY, FOOD in *; lia);
    repeat case_decide; simpl in *; try done; lia.
Qed.

Lemma Inv_path m : Good m → path_ok m.
Proof.
  intros [[Hwf [ps [Hlen Hfirst Hlast Hch]] _ _] _ _] tape. exists ps.
  split_and!; [|done|].
  - replace (Z.to_nat (length m - 1)) with (pred (Datatypes.length ps)) by lia.
    by apply follow_chain.
  - intros p Hp. exists (cell m p). split.
    + apply read_in; [done|]. by apply (chain_in _ _ Hch).
    + by apply (chain_cells _ _ Hch).
Qed.

Lemma reachable_Good_head m :
  Good m →
  in_bounds m (head m) = true ∧
  cell m (head m) ≠ EMPTY ∧ cell m (head m) ≠ FOOD.
Proof.
  intros [[_ [ps Hbody] _ _] _ _].
  by destruct (body_head m ps Hbody) as (_ & ? & ? & ?).
Qed.

Lemma shift_None p d : shift p d = None ↔ ¬ (1 ≤ d ≤ 5).
Proof.
  unfold shift, NORTH, EAST, SOUTH, WEST, NO_DIRECTION.
  destruct (d =? 1) eqn:E1; [split; [done|lia]|].
  destruct (d =? 2) eqn:E2; [split; [done|lia]|].
  destruct (d =? 3) eqn:E3; [split; [done|lia]|].
  destruct (d =? 4) eqn:E4; [split; [done|lia]|].
  destruct (d =? 5) eqn:E5; [split; [done|lia]|].
  split; [lia|done].
Qed.

(** ** Luck *)

Lemma lucky_dec m tape : lucky m tape ∨ first_hit m tape = None.
Proof.
  unfold lucky. destruct (first_hit m tape); [left; by eexists|by right].
Qed.

Lemma lucky_exists m q :
  in_bounds m q = true → cell m q = EMPTY → lucky m [q.1; q.2].
Proof. intros Hq Hc. unfold lucky. by rewrite first_hit_point. Qed.

Lemma off_center_hit w h tape :
  1 ≤ w → 1 ≤ h →
  off_center w h tape = true ↔ is_Some (first_hit (fresh w h) tape).
Proof.
  intros Hw Hh.
  induction tape as [|r|rx ry tape IH] using tape_pair_ind; simpl.
  - split; [done|by intros []].
  - split; [done|by intros []].
  - change (width (fresh w h)) with w. change (height (fresh w h)) with h.
    rewrite fresh_cell; [|done|done|].
    + case_decide as E.
      * rewrite bool_decide_eq_true_2 by done. simpl.
        change (NO_DIRECTION =? EMPTY) with false. cbv iota. exact IH.
      * rewrite bool_decide_eq_false_2 by done. simpl.
        change (EMPTY =? EMPTY) with true. cbv iota. split; [by eexists|done].
    + apply (random_point_in_bounds (fresh w h)). by apply fresh_wf.
Qed.

Lemma off_center_false w h tape :
  1 ≤ w → 1 ≤ h →
  off_center w h tape = false → first_hit (fresh w h) tape = None.
Proof.
  intros Hw Hh Hoff.
  destruct (first_hit (fresh w h) tape) eqn:E; [|done].
  assert (off_center w h tape = true) as Hon
    by (apply off_center_hit; [done..|by eexists]).
  congruence.
Qed.

(** * The properties stated by the specification *)

(** C1.  In every reachable state exactly one cell holds Food: exactly one
    entry of the grid list is [FOOD], and exactly one point reads as
    [FOOD]. *)
Theorem one_food_cell (m : Map) :
  reachable m →
  count_cells is_food m = 1 ∧
  ∃ fp, read m fp = Some FOOD ∧ ∀ q, read m q = Some FOOD → q = fp.
Proof.
  intros [[Hwf _ Hcount _] [fp (Hfp & Hfc & Huniq)] _]%reachable_Good.
  split; [done|]. exists fp. split.
  - by apply read_Some.
  - intros q [Hq Hqc]%read_Some; [|done]. by apply Huniq.
Qed.

Lemma one_food_cell_witness :
  reachable corner33 ∧ count_cells is_food corner33 = 1.
Proof.
  split; [apply corner33_reachable|].
  apply (one_food_cell corner33 corner33_reachable).
Defined.

(** C2, as the code has it.  In a reachable state, let the cell next to
    the head in direction [d] (one of the four) hold the food.  Whenever
    [move(d)] returns, it returns ["eat"], the length has grown by one, the
    head is on the old food cell, which now stores [d], and the food is on
    another cell.  It returns exactly when some pair of draws falls on an
    Empty cell; otherwise it stays in [place_food].  Such draws exist when
    some cell is Empty, and do not when none is. *)
Theorem eat_spec (m : Map) (d : Z) (np : coord) :
  reachable m →
  d ∈ [NORTH; EAST; SOUTH; WEST] →
  move_point (head m) d (m, []) = Ret np (m, []) →
  read m np = Some FOOD →
  (∀ tape ev m' tape',
     move d (m, tape) = Ret ev (m', tape') →
     ev = ["eat"%string] ∧ length m' = length m + 1 ∧
     head m' = np ∧ read m' np = Some d ∧
     ∃ q, q ≠ np ∧ read m' q = Some FOOD) ∧
  (∀ tape, lucky m tape →
           ∃ m' tape', move d (m, tape) = Ret ["eat"%string] (m', tape')) ∧
  (∀ tape, ¬ lucky m tape → move d (m, tape) = Starved) ∧
  ((∃ q, read m q = Some EMPTY) → ∃ tape, lucky m tape) ∧
  ((∀ q, read m q ≠ Some EMPTY) → ∀ tape, ¬ lucky m tape).
Proof.
  intros HG%reachable_Good Hdir [Hs _]%move_point_Ret Hread.
  pose proof HG as [HInv _ _]. pose proof HInv as [Hwf _ _ _].
  apply read_Some in Hread as [Hnp Hc]; [|done].
  assert (∀ tape,
    match first_hit m tape with
    | Some (fp, t') =>
        in_bounds m fp = true ∧ cell m fp = EMPTY ∧
        move d (m, tape) =
          Ret ["eat"%string]
            (put np d (set_length (length m + 1)
               (put fp FOOD (set_head np (put (head m) d m)))), t')
    | None => move d (m, tape) = Starved
    end) as Hcase.
  { intros tape.
    destruct (move_cases m tape d HInv)
      as [Hs' Hm|np' Hs' Hc' Hm|np' fp t1 Hd Hs' Hnp' Hc' Hhit Hfp Hfc Hm
         |np' Hd Hs' Hnp' Hc' Hhit Hm|np' nt Hd Hs' Hnp' Hc' Hnt Hm];
      rewrite Hs in Hs'; try done; injection Hs' as <-.
    - assert (collides m np = false) as Hcf
        by (apply collides_false; split; [done|by left]).
      congruence.
    - by rewrite Hhit.
    - by rewrite Hhit.
    - unfold EMPTY, FOOD in *. lia. }
  split_and!.
  - intros tape ev m' tape' Hrun. specialize (Hcase tape).
    destruct (first_hit m tape) as [[fp t']|]; [|congruence].
    destruct Hcase as (Hfp & Hfc & Hm). rewrite Hm in Hrun.
    injection Hrun as <- <- <-.
    set (m' := put np d _).
    assert (wf m') as Hwf' by (unfold m'; bounds).
    assert (fp ≠ np) as Hne by (intros ->; unfold EMPTY, FOOD in *; lia).
    destruct (reachable_Good_head m HG) as (Hh & _).
    split_and!; try reflexivity.
    + apply read_Some; [done|]. split; [done|].
      unfold m'. rewrite cell_eat by done. by rewrite decide_True.
    + exists fp. split; [done|]. apply read_Some; [done|]. split; [done|].
      unfold m'. rewrite cell_eat by done.
      by rewrite decide_False, decide_True.
  - intros tape [[fp t'] Hhit]. specialize (Hcase tape).
    rewrite Hhit in Hcase. destruct Hcase as (_ & _ & Hm). by eexists _, _.
  - intros tape Hno. specialize (Hcase tape).
    destruct (first_hit m tape) as [[fp t']|] eqn:Hhit; [|done].
    destruct Hno. by eexists.
  - intros [q [Hq Hqc]%read_Some]; [|done].
    exists [q.1; q.2]. by apply lucky_exists.
  - intros Hfull tape [[fp t'] Hhit].
    apply first_hit_spec in Hhit as [Hfp Hfc]; [|done].
    apply (Hfull fp). by apply read_Some.
Qed.

Lemma eat_spec_witness :
  ∃ m' tape', move NORTH (ahead33, [0; 0]) = Ret ["eat"%string] (m', tape').
Proof.
  apply (proj1 (proj2 (eat_spec ahead33 NORTH (1, 0) ahead33_reachable
    ltac:(apply dir_range; unfold NORTH; lia) eq_refl eq_refl))).
  by eexists.
Defined.

(** C2 as stated fails when eating fills the grid: on the 1 by 2 grid the
    head is next to the food and no cell is Empty, so [move(NORTH)] enters
    [place_food] and never returns. *)
Lemma eat_spec_counterexample :
  reachable strip12 ∧
  move_point (head strip12) NORTH (strip12, []) = Ret (0, 0) (strip12, []) ∧
  read strip12 (0, 0) = Some FOOD ∧
  ¬ ∃ tape ev s, move NORTH (strip12, tape) = Ret ev s.
Proof.
  split_and!; [apply strip12_reachable|reflexivity..|].
  intros (tape & ev & s & Hrun).
  pose proof (reachable_Good _ strip12_reachable) as [HInv _ _].
  destruct (move_cases strip12 tape NORTH HInv)
    as [Hs' Hm|np' Hs' Hc' Hm|np' fp t1 Hd Hs' Hnp' Hc' Hhit Hfp Hfc Hm
       |np' Hd Hs' Hnp' Hc' Hhit Hm|np' nt Hd Hs' Hnp' Hc' Hnt Hm];
    try done; try (injection Hs' as <-; try done).
  - apply in_bounds_spec in Hfp. destruct fp as [x y]. simpl in Hfp.
    assert (x = 0) as -> by lia.
    assert (y = 0 ∨ y = 1) as [-> | ->] by lia; done.
  - congruence.
Qed.

(** C3.  In a reachable state, a move in one of the four directions whose
    target point lies outside the grid returns ["die"] and changes nothing;
    and whenever [move] returns ["die"], the object (grid, head, tail,
    length) and the tape are what they were. *)
Theorem wall_dies (m : Map) (d : Z) :
  reachable m →
  (d ∈ [NORTH; EAST; SOUTH; WEST] →
   ∀ np tape,
     move_point (head m) d (m, tape) = Ret np (m, tape) →
     ¬ (0 ≤ np.1 < width m ∧ 0 ≤ np.2 < height m) →
     move d (m, tape) = Ret ["die"%string] (m, tape)) ∧
  (∀ tape m' tape',
     move d (m, tape) = Ret ["die"%string] (m', tape') →
     m' = m ∧ tape' = tape).
Proof.
  intros [HInv _ _]%reachable_Good. split.
  - intros _ np tape [Hs _]%move_point_Ret Hout%in_bounds_false.
    apply (move_collide m tape d np); [by destruct HInv|done|].
    unfold collides. by rewrite Hout.
  - intros tape m' tape' Hrun.
    destruct (move_cases m tape d HInv)
      as [Hs Hm|np Hs Hc Hm|np fp t1 Hd Hs Hnp Hc Hhit Hfp Hfc Hm
         |np Hd Hs Hnp Hc Hhit Hm|np nt Hd Hs Hnp Hc Hnt Hm];
      rewrite Hm in Hrun; try done.
    by injection Hrun as <- <-.
Qed.

Lemma wall_dies_witness :
  reachable top33 ∧
  move_point (head top33) NORTH (top33, []) = Ret (1, -1) (top33, []) ∧
  move NORTH (top33, []) = Ret ["die"%string] (top33, []).
Proof.
  split_and!; [apply top33_reachable|reflexivity|].
  apply (proj1 (wall_dies top33 NORTH top33_reachable)) with (np := (1, -1)).
  - apply dir_range. unfold NORTH. lia.
  - reflexivity.
  - simpl. lia.
Defined.

(** C4.  Across a [move] from a reachable state the length never
    decreases: it grows by exactly one when the events contain "eat" and
    stays the same when they do not. *)
Theorem length_steps (m : Map) (d : Z) (tape : list Z)
    (ev : list string) (m' : Map) (tape' : list Z) :
  reachable m →
  move d (m, tape) = Ret ev (m', tape') →
  length m ≤ length m' ∧
  ("eat"%string ∈ ev → length m' = length m + 1) ∧
  ("eat"%string ∉ ev → length m' = length m).
Proof.
  intros [HInv _ _]%reachable_Good Hrun.
  destruct (move_cases m tape d HInv)
    as [Hs Hm|np Hs Hc Hm|np fp t1 Hd Hs Hnp Hc Hhit Hfp Hfc Hm
       |np Hd Hs Hnp Hc Hhit Hm|np nt Hd Hs Hnp Hc Hnt Hm];
    rewrite Hm in Hrun; try done; injection Hrun as <- <- <-.
  - split_and!; [lia| |done].
    intros [[=]|[]%elem_of_nil]%elem_of_cons.
  - change (length (put np d _)) with (length m + 1).
    split_and!; [lia|done|]. intros Hno. destruct Hno. by left.
  - change (length (put np d _)) with (length m).
    split_and!; [lia| |done]. by intros []%elem_of_nil.
Qed.

Lemma length_steps_witness :
  length corner33 ≤ length top33 ∧
  ("eat"%string ∈ @nil string → length top33 = length corner33 + 1) ∧
  ("eat"%string ∉ @nil string → length top33 = length corner33).
Proof.
  exact (length_steps corner33 NORTH [] [] top33 []
           corner33_reachable top33_step).
Defined.

(** C5, as the code has it.  After a move that does not die, the cells
    that are not Empty are the [length] cells of the body and the one Food
    cell: their number is [length + 1], and the number of cells that are
    neither Empty nor Food is [length].  The spare entry of the list is
    Empty, so both counts are counts of addressable cells. *)
Theorem nonempty_cells (m : Map) (d : Z) (tape : list Z)
    (ev : list string) (m' : Map) (tape' : list Z) :
  reachable m →
  move d (m, tape) = Ret ev (m', tape') →
  ev ≠ ["die"%string] →
  count_cells is_nonempty m' = length m' + 1 ∧
  count_cells is_body m' = length m' ∧
  spare_empty m'.
Proof.
  intros Hreach Hrun _.
  assert (reachable m') as [[_ _ Hfood Hcount] _ Hsp]%reachable_Good
    by (by eapply reachable_move).
  split_and!; [done| |done].
  pose proof (count_split (grid m')) as Hsplit.
  unfold count_cells in *. lia.
Qed.

Lemma nonempty_cells_witness :
  count_cells is_nonempty top33 = length top33 + 1 ∧
  count_cells is_body top33 = length top33 ∧
  spare_empty top33.
Proof.
  apply (nonempty_cells corner33 NORTH [] [] top33 []
           corner33_reachable top33_step).
  discriminate.
Defined.

(** C5 as stated fails: after [move(NORTH)] on a fresh 3 by 3 game, which
    returns [[]], two cells are not Empty (the head and the food) while
    the length is 1. *)
Lemma nonempty_cells_counterexample :
  reachable corner33 ∧
  move NORTH (corner33, []) = Ret [] (top33, []) ∧
  count_cells is_nonempty top33 = 2 ∧ length top33 = 1.
Proof.
  split_and!; [apply corner33_reachable|apply top33_step|reflexivity..].
Qed.

(** C6.  In every reachable state the walk from the tail reaches the head
    in [length - 1] steps over cells that are not Empty, and the state
    after any move that does not die has the same property. *)
Theorem body_path (m : Map) :
  reachable m →
  path_ok m ∧
  ∀ d tape ev m' tape',
    move d (m, tape) = Ret ev (m', tape') → ev ≠ ["die"%string] → path_ok m'.
Proof.
  intros Hreach. split.
  - by apply Inv_path, reachable_Good.
  - intros d tape ev m' tape' Hrun _.
    apply Inv_path, reachable_Good. by eapply reachable_move.
Qed.

Lemma body_path_witness :
  path_ok grown33 ∧ path_ok turned33 ∧
  follow 1 (tail grown33) (grown33, []) = Ret [(1, 1); (1, 0)] (grown33, []) ∧
  follow 1 (tail turned33) (turned33, []) =
    Ret [(1, 0); (0, 0)] (turned33, []).
Proof.
  assert (reachable grown33) as Hreach
    by exact (reachable_move ahead33 grown33 NORTH [2; 2] [] ["eat"%string]
                ahead33_reachable eq_refl).
  pose proof (body_path grown33 Hreach) as [H1 H2].
  split_and!; [exact H1| |reflexivity..].
  apply (H2 WEST [] [] turned33 [] eq_refl). discriminate.
Defined.

(** C7, as the code has it.  For [width, height ≥ 1], whenever [Map(width,
    height)] returns: the points that can be read are exactly those of
    [[0,width) × [0,height)]; the head is the centre and reads
    [NO_DIRECTION]; tail = head; length = 1; one other cell, Empty until
    then, holds the food; every further cell is Empty.  The constructor
    returns exactly when some pair of draws falls off the centre, which
    some tape achieves as soon as the grid has two cells. *)
Theorem init_spec (w h : Z) :
  1 ≤ w → 1 ≤ h →
  (∀ tape m tape',
     __init__ w h tape = Ret tt (m, tape') →
     width m = w ∧ height m = h ∧
     (∀ q, is_Some (read m q) ↔ 0 ≤ q.1 < w ∧ 0 ≤ q.2 < h) ∧
     head m = (floor_half w, floor_half h) ∧
     tail m = head m ∧ length m = 1 ∧
     read m (head m) = Some NO_DIRECTION ∧
     ∃ fp, fp ≠ head m ∧ read m fp = Some FOOD ∧
           ∀ q, is_Some (read m q) → q ≠ head m → q ≠ fp →
                read m q = Some EMPTY) ∧
  (∀ tape, off_center w h tape = true →
           ∃ m tape', __init__ w h tape = Ret tt (m, tape')) ∧
  (∀ tape, off_center w h tape = false → __init__ w h tape = Starved) ∧
  (2 ≤ w * h → ∃ tape, off_center w h tape = true).
Proof.
  intros Hw Hh.
  pose proof (fresh_wf w h Hw Hh) as Hwf.
  pose proof (fresh_center w h Hw Hh) as Hcen.
  split_and!.
  - intros tape m tape' Hrun. rewrite init_run in Hrun by done.
    destruct (first_hit (fresh w h) tape) as [[fp t']|] eqn:E; [|done].
    injection Hrun as <- <-.
    apply first_hit_spec in E as [Hfp Hfc]; [|done].
    set (m := put fp FOOD (fresh w h)).
    assert (wf m) as Hwfm by (by apply wf_put).
    assert (fp ≠ (floor_half w, floor_half h)) as Hne.
    { intros ->. rewrite fresh_cell in Hfc by done.
      by rewrite decide_True in Hfc. }
    assert (∀ q, is_Some (read m q) ↔ in_bounds m q = true) as Hread.
    { intros q. destruct (in_bounds m q) eqn:Hq.
      - rewrite read_in by done. split; [done|by eexists].
      - rewrite read_out by done. split; [by intros []|done]. }
    split_and!; try reflexivity.
    + intros q. rewrite Hread. apply in_bounds_spec.
    + apply read_Some; [done|]. split; [done|].
      unfold m. rewrite cell_put_ne, fresh_cell by done.
      by rewrite decide_True.
    + exists fp. split_and!; [done| |].
      * apply read_Some; [done|]. split; [done|]. by apply cell_put_eq.
      * intros q Hq%Hread Hqh Hqf. apply read_Some; [done|]. split; [done|].
        unfold m. rewrite cell_put_ne, fresh_cell by done.
        by rewrite decide_False.
  - intros tape [[fp t'] Hhit]%off_center_hit; [|done..].
    rewrite init_run, Hhit by done. by eexists _, _.
  - intros tape Hoff%off_center_false; [|done..].
    by rewrite init_run, Hoff.
  - intros Hbig. exists [0; 0]. simpl.
    rewrite !Z.mod_0_l by lia. rewrite bool_decide_eq_false_2; [done|].
    unfold floor_half. intros [= E1 E2].
    assert (w < 2) by (destruct (decide (w < 2)); [done|];
      pose proof (Z.div_le_lower_bound w 2 1); lia).
    assert (h < 2) by (destruct (decide (h < 2)); [done|];
      pose proof (Z.div_le_lower_bound h 2 1); lia).
    nia.
Qed.

Lemma init_spec_witness :
  ∃ m tape', __init__ 3 3 [0; 0] = Ret tt (m, tape').
Proof.
  apply (proj1 (proj2 (init_spec 3 3 ltac:(lia) ltac:(lia)))).
  reflexivity.
Defined.

(** C7 as stated fails at [width = height = 1]: the only cell holds the
    head, so no draw finds an Empty cell and [Map(1, 1)] never returns. *)
Lemma init_spec_counterexample :
  ¬ ∃ tape m tape', __init__ 1 1 tape = Ret tt (m, tape').
Proof.
  intros (tape & m & tape' & Hrun).
  rewrite init_run in Hrun by lia.
  rewrite first_hit_full in Hrun; [done|by apply fresh_wf|].
  intros p Hp. rewrite fresh_cell by (done || lia).
  apply in_bounds_spec in Hp. simpl in Hp.
  rewrite decide_True; [done|].
  destruct p as [x y]. simpl in *. unfold floor_half.
  change (1 / 2) with 0. f_equal; lia.
Qed.

(** C8, as the code has it.  In a reachable state, [self[p]] raises
    [IndexError(p)] exactly when [p] is outside [[0,width) × [0,height)],
    and otherwise returns the entry [y * width + x] of the grid list.
    This is not the only error of the engine: [move] raises [ValueError]
    exactly when it is given a direction that is none of the five
    constants, and it raises nothing else; [check_collision] and
    [place_food] do not raise. *)
Theorem index_errors (m : Map) :
  reachable m →
  (∀ p tape,
     __getitem__ p (m, tape) = Raise (IndexError p) (m, tape) ↔
     ¬ (0 ≤ p.1 < width m ∧ 0 ≤ p.2 < height m)) ∧
  (∀ p tape,
     0 ≤ p.1 < width m ∧ 0 ≤ p.2 < height m →
     ∃ v, grid m !! Z.to_nat (p.2 * width m + p.1) = Some v ∧
          __getitem__ p (m, tape) = Ret v (m, tape)) ∧
  (∀ d tape e s,
     move d (m, tape) = Raise e s →
     e = ValueError d ∧ s = (m, tape) ∧ ¬ (1 ≤ d ≤ 5)) ∧
  (∀ d tape, ¬ (1 ≤ d ≤ 5) →
             move d (m, tape) = Raise (ValueError d) (m, tape)) ∧
  (∀ p tape e s, check_collision p (m, tape) ≠ Raise e s) ∧
  (∀ tape e s, place_food (m, tape) ≠ Raise e s).
Proof.
  intros [HInv _ _]%reachable_Good. pose proof HInv as [Hwf _ _ _].
  split_and!.
  - intros p tape. rewrite <- in_bounds_false.
    destruct (in_bounds m p) eqn:Hin.
    + rewrite getitem_in by done. split; done.
    + rewrite getitem_out by done. split; done.
  - intros p tape Hin%in_bounds_spec.
    pose proof (idx_lt m p Hwf Hin) as Hlt.
    destruct (grid m !! Z.to_nat (p.2 * width m + p.1)) as [v|] eqn:E.
    + exists v. split; [done|]. rewrite getitem_in by done.
      unfold cell, idx. by rewrite E.
    + apply lookup_ge_None in E. unfold idx in Hlt. lia.
  - intros d tape e s Hrun.
    destruct (move_cases m tape d HInv)
      as [Hs' Hm|np' Hs' Hc' Hm|np' fp t1 Hd Hs' Hnp' Hc' Hhit Hfp Hfc Hm
         |np' Hd Hs' Hnp' Hc' Hhit Hm|np' nt Hd Hs' Hnp' Hc' Hnt Hm];
      rewrite Hm in Hrun; try done.
    injection Hrun as <- <-. split_and!; [done..|].
    by apply (shift_None (head m) d).
  - intros d tape Hd. apply move_invalid. by apply (shift_None (head m) d).
  - intros p tape e s. by rewrite check_collision_run.
  - intros tape e s. rewrite place_food_run by done.
    by destruct (first_hit m tape) as [[??]|].
Qed.

Lemma index_errors_witness :
  __getitem__ (3, 0) (corner33, []) = Raise (IndexError (3, 0)) (corner33, []).
Proof.
  apply (proj1 (index_errors corner33 corner33_reachable)). simpl. lia.
Defined.

(** C8 as stated fails on its last part: the out-of-bounds error is not
    the only error of the engine, [move] raises [ValueError] on a value
    that is not a direction. *)
Lemma index_errors_counterexample :
  reachable corner33 ∧
  move EMPTY (corner33, []) = Raise (ValueError EMPTY) (corner33, []).
Proof. split; [apply corner33_reachable|reflexivity]. Qed.

(** C9.  The conditional write of the head cell changes nothing: in every
    reachable state and for every direction, [move] without it has the
    same outcome (events, object and tape, or exception) as [move]. *)
Theorem single_write_same (m : Map) (d : Z) (tape : list Z) :
  reachable m →
  move_single_write d (m, tape) = move d (m, tape).
Proof.
  intros [[Hwf [ps Hbody] _ _] _ _]%reachable_Good.
  destruct (body_head m ps Hbody) as (_ & Hh & _).
  destruct (shift (head m) d) as [np|] eqn:Hs.
  - destruct (collides m np) eqn:Hc.
    + rewrite (move_collide m tape d np) by done.
      unfold move_single_write.
      rewrite run_gets, run_bind, move_point_run, Hs.
      by rewrite run_bind, check_collision_run, Hc.
    + rewrite (move_advance m tape d np) by done.
      unfold move_single_write.
      rewrite run_gets, run_bind, move_point_run, Hs.
      rewrite run_bind, check_collision_run, Hc by done.
      rewrite run_gets, run_bind, setitem_in by done.
      by rewrite run_modify.
  - rewrite move_invalid by done. unfold move_single_write.
    by rewrite run_gets, run_bind, move_point_run, Hs.
Qed.

Lemma single_write_same_witness :
  move_single_write NORTH (corner33, []) = move NORTH (corner33, []).
Proof. apply (single_write_same corner33 NORTH [] corner33_reachable). Defined.

(** C10.  In a reachable state [move(NO_DIRECTION)] returns ["die"] and
    changes nothing: the target point is the head itself, whose cell is
    neither Empty nor Food. *)
Theorem no_direction_dies (m : Map) :
  reachable m →
  (∀ tape,
     move_point (head m) NO_DIRECTION (m, tape) = Ret (head m) (m, tape)) ∧
  (∃ v, read m (head m) = Some v ∧ v ≠ EMPTY ∧ v ≠ FOOD) ∧
  ∀ tape, move NO_DIRECTION (m, tape) = Ret ["die"%string] (m, tape).
Proof.
  intros [[Hwf [ps Hbody] _ _] _ _]%reachable_Good.
  destruct (body_head m ps Hbody) as (_ & Hh & Hhe & Hhf).
  split_and!.
  - intros tape. by apply move_point_Ret.
  - exists (cell m (head m)). split_and!; [by apply read_in|done..].
  - intros tape. apply (move_collide m tape _ (head m)); [done..|].
    unfold collides. rewrite Hh. simpl.
    destruct (cell m (head m) =? FOOD) eqn:E1; [lia|].
    destruct (cell m (head m) =? EMPTY) eqn:E2; [lia|done].
Qed.

Lemma no_direction_dies_witness :
  move NO_DIRECTION (corner33, [3; 4]) = Ret ["die"%string] (corner33, [3; 4]).
Proof.
  apply (proj2 (proj2 (no_direction_dies corner33 corner33_reachable))).
Defined.

(** * Further properties of the engine *)

(** ** The body after a move, explicitly *)

Lemma body_plain m ps d np nt :
  wf m → body_of m ps →
  shift (head m) d = Some np → in_bounds m np = true → cell m np = EMPTY →
  shift (tail m) (cell (put (head m) d m) (tail m)) = Some nt →
  body_of (put np d (set_tail nt
             (put (tail m) EMPTY (set_head np (put (head m) d m)))))
          (drop 1 ps ++ [np]).
Proof.
  intros Hwf Hbody Hs Hnp Hc Hsnt.
  destruct (body_head m ps Hbody) as (Hhps & Hh & Hhe & Hhf).
  destruct (body_tail m ps Hbody) as (Htps & Ht & Hte & Htf).
  destruct Hbody as [Hlen Hfirst Hlast Hch].
  assert (np ∉ ps) as Hnps.
  { intros Hin. by apply (chain_cells _ _ Hch) in Hin as [? _]. }
  assert (np ≠ head m) as Hnh by (by intros ->).
  assert (np ≠ tail m) as Hnt by (by intros ->).
  pose proof (shift_dir _ _ _ Hs Hnh) as Hd.
  destruct ps as [|t rest]; [done|]. simpl in Hfirst. injection Hfirst as ->.
  change (drop 1 (tail m :: rest)) with rest.
  set (mA := put np d (put (head m) d m)).
  assert (chain mA ((tail m :: rest) ++ [np])) as HchA.
  { eapply (chain_snoc m mA _ (head m) d np); try done.
    - intros p Hp Hne. unfold mA.
      pose proof (chain_in _ _ Hch p Hp) as Hpin.
      rewrite !cell_put by bounds. repeat case_decide; congruence.
    - unfold mA. rewrite !cell_put by bounds.
      repeat case_decide; congruence.
    - unfold mA. rewrite cell_put_eq by bounds. unfold EMPTY. lia.
    - unfold mA. rewrite cell_put_eq by bounds. unfold FOOD. lia.
    - unfold EMPTY. lia.
    - unfold FOOD. lia. }
  assert ((rest ++ [np]) !! 0%nat = Some nt) as Hnt0.
  { rewrite <- Hsnt. destruct rest as [|r rest].
    - simpl in Hlast. injection Hlast as Hth. rewrite Hth.
      by rewrite cell_put_eq.
    - assert (tail m ≠ head m) as Hne.
      { intros E. pose proof (chain_nodup _ _ Hch) as Hnd.
        apply NoDup_cons in Hnd as [Hnin _]. apply Hnin.
        rewrite E. apply last_Some_elem_of.
        by rewrite last_cons_cons in Hlast. }
      rewrite cell_put_ne by done. simpl.
      symmetry. by apply (chain_links _ _ Hch 0%nat). }
  set (m5 := put np d _).
  split.
  - change (length m5) with (length m). rewrite <- Hlen.
    rewrite length_app. simpl. lia.
  - done.
  - by rewrite last_snoc.
  - apply (chain_drop mA m5 (tail m) (rest ++ [np])); [done..|].
    intros p Hp.
    assert (p ≠ tail m) as Hpt.
    { intros ->. pose proof (chain_nodup _ _ HchA) as Hnd.
      simpl in Hnd. by apply NoDup_cons in Hnd as [? _]. }
    assert (in_bounds m p = true) as Hpin.
    { apply (chain_in _ _ HchA). by right. }
    unfold m5. rewrite cell_plain by done. unfold mA.
    rewrite !cell_put by bounds. repeat case_decide; congruence.
Qed.

Lemma body_eat m ps d np fp :
  wf m → body_of m ps →
  shift (head m) d = Some np → in_bounds m np = true → cell m np = FOOD →
  in_bounds m fp = true → cell m fp = EMPTY →
  body_of (put np d (set_length (length m + 1)
             (put fp FOOD (set_head np (put (head m) d m)))))
          (ps ++ [np]).
Proof.
  intros Hwf Hbody Hs Hnp Hc Hfp Hfc.
  destruct (body_head m ps Hbody) as (Hhps & Hh & Hhe & Hhf).
  destruct Hbody as [Hlen Hfirst Hlast Hch].
  assert (np ∉ ps) as Hnps.
  { intros Hin. by apply (chain_cells _ _ Hch) in Hin as [_ ?]. }
  assert (fp ∉ ps) as Hfps.
  { intros Hin. by apply (chain_cells _ _ Hch) in Hin as [? _]. }
  assert (np ≠ head m) as Hnh by (by intros ->).
  assert (fp ≠ head m) as Hfh by (by intros ->).
  assert (fp ≠ np) as Hfn by (intros ->; unfold EMPTY, FOOD in *; lia).
  pose proof (shift_dir _ _ _ Hs Hnh) as Hd.
  set (m5 := put np d _).
  assert (∀ q, in_bounds m q = true →
            cell m5 q = if decide (q = np) then d
                        else if decide (q = fp) then FOOD
                        else if decide (q = head m) then d else cell m q)
    as Hcell by (intros q Hq; by apply cell_eat).
  split.
  - change (length m5) with (length m + 1). rewrite <- Hlen.
    rewrite length_app. simpl. lia.
  - rewrite lookup_app_l; [done|]. by eapply lookup_lt_Some.
  - by rewrite last_snoc.
  - eapply (chain_snoc m m5 ps (head m) d np); try done.
    + intros p Hp Hne. rewrite Hcell by (by eapply chain_in).
      repeat case_decide; congruence.
    + rewrite Hcell by done. repeat case_decide; congruence.
    + rewrite Hcell, decide_True by done. unfold EMPTY; lia.
    + rewrite Hcell, decide_True by done. unfold FOOD; lia.
    + unfold EMPTY; lia.
    + unfold FOOD; lia.
Qed.

(** The cell before the last one of a duplicate-free list. *)
Lemma before_last (ps : list coord) (x : coord) (i : nat) (p : coord) :
  NoDup (ps ++ [x]) → (ps ++ [x]) !! i = Some p → (ps ++ [x]) !! S i = Some x →
  last ps = Some p.
Proof.
  intros Hnd Hp Hx.
  assert ((ps ++ [x]) !! Datatypes.length ps = Some x) as Hx'.
  { rewrite lookup_app_r by lia. by rewrite Nat.sub_diag. }
  pose proof (NoDup_lookup _ _ _ _ Hnd Hx Hx') as Hi.
  rewrite last_lookup, <- Hi. simpl.
  rewrite lookup_app_l in Hp by lia. done.
Qed.

Lemma tidy_first_food w h fp :
  1 ≤ w → 1 ≤ h →
  in_bounds (fresh w h) fp = true → cell (fresh w h) fp = EMPTY →
  tidy (put fp FOOD (fresh w h)) [(floor_half w, floor_half h)].
Proof.
  intros Hw Hh Hin Hc.
  pose proof (fresh_wf w h Hw Hh) as Hwf.
  pose proof (fresh_center w h Hw Hh) as Hcen.
  assert (fp ≠ (floor_half w, floor_half h)) as Hne.
  { intros ->. rewrite fresh_cell in Hc by done.
    by rewrite decide_True in Hc. }
  split.
  - split; [done..|].
    assert (cell (put fp FOOD (fresh w h)) (floor_half w, floor_half h)
            = NO_DIRECTION) as Hv.
    { rewrite cell_put_ne, fresh_cell by done. by rewrite decide_True. }
    apply chain_one; [done|by rewrite Hv..].
  - intros q Hq Hnq%not_elem_of_cons. destruct Hnq as [Hnq _].
    rewrite cell_put by done. case_decide; [by right|].
    rewrite fresh_cell by done. rewrite decide_False by done. by left.
  - intros i p _ Hh'. by destruct i.
Qed.

Lemma tidy_plain m ps d np nt :
  wf m → tidy m ps →
  shift (head m) d = Some np → in_bounds m np = true → cell m np = EMPTY →
  shift (tail m) (cell (put (head m) d m) (tail m)) = Some nt →
  tidy (put np d (set_tail nt
          (put (tail m) EMPTY (set_head np (put (head m) d m)))))
       (drop 1 ps ++ [np]).
Proof.
  intros Hwf [Hbody Hoff Hneck] Hs Hnp Hc Hsnt.
  pose proof (body_plain m ps d np nt Hwf Hbody Hs Hnp Hc Hsnt) as Hbody'.
  destruct (body_head m ps Hbody) as (Hhps & Hh & Hhe & Hhf).
  destruct (body_tail m ps Hbody) as (Htps & Ht & Hte & Htf).
  assert (np ≠ head m) as Hnh by (by intros ->).
  assert (np ≠ tail m) as Hnt by (by intros ->).
  pose proof (chain_nodup _ _ (body_chain _ _ Hbody)) as Hnd.
  pose proof (chain_nodup _ _ (body_chain _ _ Hbody')) as Hnd'.
  pose proof (body_last _ _ Hbody) as Hlast.
  destruct ps as [|t rest]; [done|].
  pose proof (body_first _ _ Hbody) as Hfirst.
  simpl in Hfirst. injection Hfirst as Htt. subst t.
  change (drop 1 (tail m :: rest)) with rest in *.
  apply NoDup_cons in Hnd as [Htr Hndr].
  split; [done|..].
  - intros q Hq Hnq. apply not_elem_of_app in Hnq as [Hqr Hqn].
    apply not_elem_of_cons in Hqn as [Hqn _].
    rewrite cell_plain by done.
    rewrite decide_False by done.
    case_decide as Hqt; [by left|].
    case_decide as Hqh.
    + subst q. apply elem_of_cons in Hhps as [?|?]; congruence.
    + apply Hoff; [done|]. intros [?|?]%elem_of_cons; congruence.
  - intros i p Hp Hnp'.
    change (head (put np d _)) with np in *.
    pose proof (before_last _ _ _ _ Hnd' Hp Hnp') as Hl.
    assert (p = head m) as ->.
    { destruct rest as [|r rest]; [done|].
      rewrite last_cons_cons in Hlast. congruence. }
    assert (head m ≠ tail m) as Hht.
    { intros E. apply Htr. rewrite <- E. by apply last_Some_elem_of. }
    rewrite !cell_plain by done.
    repeat case_decide; congruence.
Qed.

Lemma tidy_eat m ps d np fp :
  wf m → tidy m ps →
  shift (head m) d = Some np → in_bounds m np = true → cell m np = FOOD →
  in_bounds m fp = true → cell m fp = EMPTY →
  tidy (put np d (set_length (length m + 1)
          (put fp FOOD (set_head np (put (head m) d m)))))
       (ps ++ [np]).
Proof.
  intros Hwf [Hbody Hoff Hneck] Hs Hnp Hc Hfp Hfc.
  pose proof (body_eat m ps d np fp Hwf Hbody Hs Hnp Hc Hfp Hfc) as Hbody'.
  destruct (body_head m ps Hbody) as (Hhps & Hh & Hhe & Hhf).
  assert (np ≠ head m) as Hnh by (by intros ->).
  assert (fp ≠ head m) as Hfh by (by intros ->).
  pose proof (chain_nodup _ _ (body_chain _ _ Hbody')) as Hnd'.
  pose proof (body_last _ _ Hbody) as Hlast.
  split; [done|..].
  - intros q Hq Hnq. apply not_elem_of_app in Hnq as [Hqr Hqn].
    apply not_elem_of_cons in Hqn as [Hqn _].
    rewrite cell_eat by done.
    rewrite decide_False by done.
    case_decide as Hqf; [by right|].
    case_decide as Hqh; [congruence|]. by apply Hoff.
  - intros i p Hp Hnp'.
    change (head (put np d _)) with np in *.
    pose proof (before_last _ _ _ _ Hnd' Hp Hnp') as Hl.
    assert (p = head m) as -> by congruence.
    rewrite !cell_eat by done.
    repeat case_decide; congruence.
Qed.

Lemma reachable_tidy m : reachable m → ∃ ps, tidy m ps.
Proof.
  induction 1 as [w h tape tape' m Hrun|m m' d tape tape' ev Hreach IH Hrun].
  - destruct (decide (1 ≤ w ∧ 1 ≤ h)) as [[Hw Hh]|Hsmall];
      [|destruct (init_small w h tape Hsmall) as [s Hs]; congruence].
    rewrite init_run in Hrun by done.
    destruct (first_hit (fresh w h) tape) as [[fp t']|] eqn:E; [|done].
    injection Hrun as <- <-.
    apply first_hit_spec in E as [Hin Hc]; [|by apply fresh_wf].
    eexists. by apply tidy_first_food.
  - destruct IH as [ps Htidy].
    pose proof (reachable_Good m Hreach) as [HInv _ _].
    pose proof HInv as [Hwf _ _ _].
    destruct (move_cases m tape d HInv)
      as [Hs Hm|np Hs Hc Hm|np fp t1 Hd Hs Hnp Hc Hhit Hfp Hfc Hm
         |np Hd Hs Hnp Hc Hhit Hm|np nt Hd Hs Hnp Hc Hnt Hm];
      rewrite Hm in Hrun; try done; injection Hrun as _ <- _.
    + by exists ps.
    + eexists. by apply tidy_eat.
    + eexists. by apply tidy_plain.
Qed.

(** ** Helper facts *)

Lemma grown33_step :
  move NORTH (ahead33, [2; 2]) = Ret ["eat"%string] (grown33, []).
Proof. reflexivity. Qed.

Lemma grown33_reachable : reachable grown33.
Proof. eapply reachable_move; [apply ahead33_reachable|apply grown33_step]. Qed.

Lemma corner33_wf : wf corner33.
Proof. split; [unfold corner33; simpl; lia..|reflexivity]. Qed.

Lemma shift_inj p p' d q : shift p d = Some q → shift p' d = Some q → p = p'.
Proof.
  unfold shift. destruct p as [x y], p' as [x' y'], q as [a b]. simpl.
  repeat (destruct (d =? _); [intros [= ? ?] [= ? ?]; f_equal; lia|]).
  done.
Qed.

Lemma first_hit_used m tape p tape' :
  first_hit m tape = Some (p, tape') →
  ∃ used, tape = used ++ tape' ∧ used ≠ [] ∧ Nat.Even (Datatypes.length used).
Proof.
  revert tape'.
  induction tape as [|r|rx ry tape IH] using tape_pair_ind;
    intros tape'; simpl; [done|done|].
  destruct (cell m _ =? EMPTY).
  - intros [= _ <-]. exists [rx; ry]. split_and!; [done|done|by exists 1%nat].
  - intros (used & -> & _ & [k Hk])%IH. exists (rx :: ry :: used).
    split_and!; [done|done|]. exists (S k). simpl. lia.
Qed.

Lemma read_cell_in m p v :
  wf m → read m p = Some v → in_bounds m p = true ∧ cell m p = v.
Proof. intros Hwf. by apply read_Some. Qed.

(** ** [move_point] *)

(** X1.  Opposite steps cancel, and two steps in the four directions can
    be taken in either order. *)
Theorem move_point_steps (p : coord) (s : state) :
  (move_point p NORTH ≫= λ q, move_point q SOUTH) s = Ret p s ∧
  (move_point p SOUTH ≫= λ q, move_point q NORTH) s = Ret p s ∧
  (move_point p EAST ≫= λ q, move_point q WEST) s = Ret p s ∧
  (move_point p WEST ≫= λ q, move_point q EAST) s = Ret p s ∧
  ∀ d e, d ∈ [NORTH; EAST; SOUTH; WEST] → e ∈ [NORTH; EAST; SOUTH; WEST] →
    (move_point p d ≫= λ q, move_point q e) s =
    (move_point p e ≫= λ q, move_point q d) s.
Proof.
  destruct p as [x y].
  assert (∀ a b a' b' : Z, a = a' → b = b' → @Ret coord (a, b) s = Ret (a', b') s)
    as Heq by (by intros; subst).
  split_and!; try (rewrite run_bind, !move_point_run; simpl; apply Heq; lia).
  intros d e Hd%dir_range He%dir_range.
  unfold NORTH, EAST, SOUTH, WEST in *.
  assert (d = 1 ∨ d = 2 ∨ d = 3 ∨ d = 4) as Hd' by lia.
  assert (e = 1 ∨ e = 2 ∨ e = 3 ∨ e = 4) as He' by lia.
  destruct Hd' as [->|[->|[->| ->]]], He' as [->|[->|[->| ->]]];
    rewrite !run_bind, !move_point_run; simpl; rewrite !move_point_run; simpl;
    apply Heq; lia.
Qed.

(** ** [__getitem__] and [__setitem__] *)

(** X2.  On an object whose list has [width * height + 1] entries, writing
    a point in bounds succeeds, the point then reads back the value
    written, every other point reads as before, and no attribute other
    than the grid changes. *)
Theorem setitem_getitem (m : Map) (p : coord) (v : Z) (tape : list Z) :
  wf m →
  0 ≤ p.1 < width m ∧ 0 ≤ p.2 < height m →
  ∃ m',
    __setitem__ p v (m, tape) = Ret tt (m', tape) ∧
    __getitem__ p (m', tape) = Ret v (m', tape) ∧
    (∀ q, q ≠ p → read m' q = read m q) ∧
    width m' = width m ∧ height m' = height m ∧
    head m' = head m ∧ tail m' = tail m ∧ length m' = length m ∧
    Datatypes.length (grid m') = Datatypes.length (grid m).
Proof.
  intros Hwf Hin%in_bounds_spec. exists (put p v m).
  assert (wf (put p v m)) as Hwf' by (by apply wf_put).
  split_and!; try reflexivity.
  - by apply setitem_in.
  - rewrite getitem_in by done. by rewrite cell_put_eq.
  - intros q Hne. destruct (in_bounds m q) eqn:Hq.
    + rewrite !read_in by done. by rewrite cell_put_ne.
    + by rewrite !read_out.
  - unfold put. simpl. by rewrite length_insert.
Qed.

Lemma setitem_getitem_witness :
  ∃ m', __setitem__ (2, 1) WEST (corner33, []) = Ret tt (m', []) ∧
        __getitem__ (2, 1) (m', []) = Ret WEST (m', []).
Proof.
  destruct (setitem_getitem corner33 (2, 1) WEST [] corner33_wf)
    as (m' & H1 & H2 & _).
  - simpl. lia.
  - by exists m'.
Defined.

(** X3.  On any object at all, reading or writing a point outside
    [[0,width) × [0,height)] raises [IndexError] with that point and
    leaves the object as it was: a negative coordinate never reaches the
    list, where it would count from the end. *)
Theorem out_of_bounds_access (m : Map) (p : coord) (v : Z) (tape : list Z) :
  ¬ (0 ≤ p.1 < width m ∧ 0 ≤ p.2 < height m) →
  __getitem__ p (m, tape) = Raise (IndexError p) (m, tape) ∧
  __setitem__ p v (m, tape) = Raise (IndexError p) (m, tape).
Proof.
  intros Hout%in_bounds_false. split.
  - by apply getitem_out.
  - by apply setitem_out.
Qed.

Lemma out_of_bounds_access_witness :
  __getitem__ (-1, 0) (corner33, []) = Raise (IndexError (-1, 0)) (corner33, []) ∧
  __setitem__ (-1, 0) FOOD (corner33, []) =
    Raise (IndexError (-1, 0)) (corner33, []).
Proof. apply (out_of_bounds_access corner33 (-1, 0) FOOD []). simpl. lia. Defined.

(** ** [check_collision] *)

(** X4.  On an object whose list has [width * height + 1] entries,
    [check_collision] never raises and never changes anything; its answer
    is [True] exactly for a point outside the grid or on a cell that is
    neither Empty nor Food. *)
Theorem check_collision_table (m : Map) (p : coord) (tape : list Z) :
  wf m →
  ∃ b : bool,
    check_collision p (m, tape) = Ret b (m, tape) ∧
    (b = true ↔
     ¬ (0 ≤ p.1 < width m ∧ 0 ≤ p.2 < height m) ∨
     ∃ v, read m p = Some v ∧ v ≠ EMPTY ∧ v ≠ FOOD).
Proof.
  intros Hwf. exists (collides m p). split; [by apply check_collision_run|].
  rewrite <- in_bounds_false. unfold collides.
  destruct (in_bounds m p) eqn:Hin; simpl.
  - rewrite read_in by done. split.
    + intros [H1 H2]%andb_true_iff. right. exists (cell m p).
      apply negb_true_iff, Z.eqb_neq in H1, H2. done.
    + intros [?|(v & [= <-] & H1 & H2)]; [done|].
      apply andb_true_iff. split; by apply negb_true_iff, Z.eqb_neq.
  - split; [by left|done].
Qed.

Lemma check_collision_table_witness :
  ∃ b : bool, check_collision (1, 1) (corner33, []) = Ret b (corner33, []).
Proof.
  destruct (check_collision_table corner33 (1, 1) [] corner33_wf) as (b & H & _).
  by exists b.
Defined.

(** ** [place_food] *)

(** X5.  On an object whose list has [width * height + 1] entries,
    [place_food] never raises.  When it returns it has turned one cell
    that was Empty into Food and changed nothing else, and it has consumed
    a positive, even number of draws from the front of the tape.  It
    returns exactly when some pair of draws falls on an Empty cell. *)
Theorem place_food_spec (m : Map) (tape : list Z) :
  wf m →
  (∀ e s, place_food (m, tape) ≠ Raise e s) ∧
  (∀ m' tape',
     place_food (m, tape) = Ret tt (m', tape') →
     (∃ p, read m p = Some EMPTY ∧ read m' p = Some FOOD ∧
           ∀ q, q ≠ p → read m' q = read m q) ∧
     width m' = width m ∧ height m' = height m ∧
     head m' = head m ∧ tail m' = tail m ∧ length m' = length m ∧
     ∃ used, tape = used ++ tape' ∧ used ≠ [] ∧
             Nat.Even (Datatypes.length used)) ∧
  (lucky m tape ↔ ∃ s, place_food (m, tape) = Ret tt s) ∧
  ((∀ q, read m q ≠ Some EMPTY) → place_food (m, tape) = Starved).
Proof.
  intros Hwf. rewrite place_food_run by done. split_and!.
  - intros e s. by destruct (first_hit m tape) as [[??]|].
  - intros m' tape' Hrun.
    destruct (first_hit m tape) as [[p t']|] eqn:Hhit; [|done].
    injection Hrun as <- <-.
    pose proof (first_hit_spec _ _ _ _ Hwf Hhit) as [Hp Hc].
    assert (wf (put p FOOD m)) as Hwf' by (by apply wf_put).
    split_and!; try reflexivity; [|by eapply first_hit_used].
    exists p. split_and!.
    + by apply read_Some.
    + apply read_Some; [done|]. split; [done|]. by apply cell_put_eq.
    + intros q Hne. destruct (in_bounds m q) eqn:Hq.
      * rewrite !read_in by done. by rewrite cell_put_ne.
      * by rewrite !read_out.
  - unfold lucky. destruct (first_hit m tape) as [[p t']|].
    + split; [by eexists|by eexists].
    + split; [by intros []|by intros []].
  - intros Hfull. rewrite first_hit_full; [done..|].
    intros q Hq Hc. apply (Hfull q). by apply read_Some.
Qed.

Lemma place_food_spec_witness :
  lucky corner33 [1; 2] ↔ ∃ s, place_food (corner33, [1; 2]) = Ret tt s.
Proof.
  apply (proj1 (proj2 (proj2 (place_food_spec corner33 [1; 2] corner33_wf)))).
Defined.

(** ** [__init__] *)

(** X6.  [Map(width, height)] with [width < 1] or [height < 1] raises
    [IndexError] with the centre point, when it tries to write the head
    cell; no draw is consumed.  This is for [width] and [height] of at
    most [2^53] in absolute value, where the floating-point quotient of
    [math.floor(n / 2)] is the exact one, and for a list of fewer than
    [2^60] entries, which is what a list can hold. *)
Theorem init_bad_size (w h : Z) (tape : list Z) :
  ¬ (1 ≤ w ∧ 1 ≤ h) →
  Z.abs w ≤ 2 ^ 53 → Z.abs h ≤ 2 ^ 53 → w * h + 1 < 2 ^ 60 →
  ∃ m, __init__ w h tape =
       Raise (IndexError (floor_half w, floor_half h)) (m, tape).
Proof.
  intros Hwh _ _ _. unfold __init__. cbv zeta.
  rewrite run_modify, iter_append, run_gets, run_bind. eexists.
  rewrite setitem_out; [reflexivity|].
  apply in_bounds_false. simpl. unfold floor_half. intros [Hx Hy].
  assert (0 < w) by (destruct (decide (0 < w)); [done|];
    pose proof (Z.div_le_upper_bound w 2 0); lia).
  assert (0 < h) by (destruct (decide (0 < h)); [done|];
    pose proof (Z.div_le_upper_bound h 2 0); lia).
  lia.
Qed.

Lemma init_bad_size_witness :
  (∃ m, __init__ 0 5 [4; 4] = Raise (IndexError (0, 2)) (m, [4; 4])) ∧
  (∃ m, __init__ (-3) (-4) [] = Raise (IndexError (-2, -2)) (m, [])).
Proof.
  split.
  - apply (init_bad_size 0 5 [4; 4]); [lia|by vm_compute..].
  - apply (init_bad_size (-3) (-4) []); [lia|by vm_compute..].
Defined.

(** ** The grid list *)

(** X7.  In every reachable state the grid list has
    [width * height + 1] entries, the index [y * width + x] of a point in
    bounds is below [width * height], and the entry at
    [width * height], which no point is mapped to, is Empty. *)
Theorem spare_entry (m : Map) :
  reachable m →
  Z.of_nat (Datatypes.length (grid m)) = width m * height m + 1 ∧
  grid m !! Z.to_nat (width m * height m) = Some EMPTY ∧
  ∀ p, 0 ≤ p.1 < width m ∧ 0 ≤ p.2 < height m →
       0 ≤ p.2 * width m + p.1 < width m * height m.
Proof.
  intros [[[Hw Hh Hg] _ _ _] _ Hsp]%reachable_Good.
  split_and!; [done..|]. intros p [Hx Hy]. nia.
Qed.

Lemma spare_entry_witness :
  Z.of_nat (Datatypes.length (grid top33)) = width top33 * height top33 + 1.
Proof. apply (proj1 (spare_entry top33 top33_reachable)). Defined.

(** X12.  In every reachable state [1 ≤ length ≤ width * height - 1]: the
    snake never covers the whole grid, one cell is left for the food. *)
Theorem length_bound (m : Map) :
  reachable m → 1 ≤ length m ≤ width m * height m - 1.
Proof.
  intros [[[Hw Hh Hg] [ps [Hlen Hfirst _ _]] _ Hcount] _ Hsp]%reachable_Good.
  split.
  - rewrite <- Hlen. destruct ps; [done|]. simpl. lia.
  - unfold count_cells in Hcount.
    assert (Datatypes.length (filter (λ v, is_nonempty v = true) (grid m))
            < Datatypes.length (grid m))%nat as Hlt.
    { apply (length_filter_lt _ _ EMPTY); [|done].
      by eapply list_elem_of_lookup_2. }
    lia.
Qed.

Lemma length_bound_witness : 1 ≤ length grown33 ≤ width grown33 * height grown33 - 1.
Proof. apply (length_bound grown33 grown33_reachable). Defined.

(** ** [move] onto an Empty cell, onto the body, and in general *)

(** X8.  In a reachable state, a move onto an Empty cell returns [[]] and
    consumes no draw.  Afterwards the head is on that cell, which stores
    the direction; the length is unchanged; the old tail cell is Empty;
    the tail has taken one step along the direction its cell held (onto
    the new head cell when the snake has one cell); the food and every
    cell other than the old head, the old tail and the new head are as
    they were. *)
Theorem move_to_empty (m : Map) (d : Z) (np : coord) :
  reachable m →
  move_point (head m) d (m, []) = Ret np (m, []) →
  read m np = Some EMPTY →
  ∀ tape, ∃ m',
    move d (m, tape) = Ret [] (m', tape) ∧
    head m' = np ∧ read m' np = Some d ∧
    length m' = length m ∧
    read m' (tail m) = Some EMPTY ∧
    (tail m = head m → tail m' = np) ∧
    (tail m ≠ head m →
     ∃ dt, read m (tail m) = Some dt ∧
           move_point (tail m) dt (m, tape) = Ret (tail m') (m, tape)) ∧
    (∀ q, read m q = Some FOOD → read m' q = Some FOOD) ∧
    (∀ q, q ≠ np → q ≠ tail m → q ≠ head m → read m' q = read m q).
Proof.
  intros [HInv _ _]%reachable_Good [Hs _]%move_point_Ret Hread tape.
  pose proof HInv as [Hwf [ps Hbody] _ _].
  apply read_Some in Hread as [Hnp Hc]; [|done].
  destruct (body_head m ps Hbody) as (_ & Hh & Hhe & Hhf).
  destruct (body_tail m ps Hbody) as (_ & Ht & Hte & Htf).
  destruct (move_cases m tape d HInv)
    as [Hs' Hm|np' Hs' Hc' Hm|np' fp t1 Hd Hs' Hnp' Hc' Hhit Hfp Hfc Hm
       |np' Hd Hs' Hnp' Hc' Hhit Hm|np' nt Hd Hs' Hnp' Hc' Hnt Hm];
    rewrite Hs in Hs'; try done; injection Hs' as <-;
    try (unfold EMPTY, FOOD in *; lia).
  - assert (collides m np = false) as Hcf
      by (apply collides_false; split; [done|by right]).
    congruence.
  - eexists. split; [exact Hm|]. set (m' := put np d _).
    assert (wf m') as Hwf' by (unfold m'; bounds).
    assert (np ≠ head m) as Hnh by (by intros ->).
    assert (np ≠ tail m) as Hnt' by (by intros ->).
    assert (∀ q, in_bounds m q = true →
              cell m' q = if decide (q = np) then d
                          else if decide (q = tail m) then EMPTY
                          else if decide (q = head m) then d else cell m q)
      as Hcell by (intros q Hq; by apply cell_plain).
    split_and!; try reflexivity.
    + apply read_Some; [done|]. split; [done|].
      rewrite Hcell by done. by rewrite decide_True.
    + apply read_Some; [done|]. split; [done|].
      rewrite Hcell by done. repeat case_decide; congruence.
    + intros Hth. change (tail m') with nt.
      rewrite Hth, cell_put_eq in Hnt by done. congruence.
    + intros Hth. exists (cell m (tail m)). split; [by apply read_in|].
      apply move_point_Ret. split; [|done]. change (tail m') with nt.
      by rewrite cell_put_ne in Hnt.
    + intros q [Hq Hqc]%read_Some; [|done].
      apply read_Some; [done|]. split; [done|]. rewrite Hcell by done.
      repeat case_decide; subst; unfold EMPTY, FOOD in *; congruence.
    + intros q H1 H2 H3. destruct (in_bounds m q) eqn:Hq.
      * rewrite !read_in by done. rewrite Hcell by done.
        repeat case_decide; congruence.
      * by rewrite !read_out.
Qed.

Lemma move_to_empty_witness :
  ∃ m', move NORTH (corner33, [5]) = Ret [] (m', [5]) ∧ head m' = (1, 0).
Proof.
  destruct (move_to_empty corner33 NORTH (1, 0) corner33_reachable
              eq_refl eq_refl [5]) as (m' & H1 & H2 & _).
  by exists m'.
Defined.

(** X9.  In a reachable state, a move onto a cell that is neither Empty
    nor Food (a cell of the body, the tail cell included) returns
    ["die"] and changes nothing. *)
Theorem body_dies (m : Map) (d : Z) (np : coord) (v : Z) (tape : list Z) :
  reachable m →
  move_point (head m) d (m, tape) = Ret np (m, tape) →
  read m np = Some v → v ≠ EMPTY → v ≠ FOOD →
  move d (m, tape) = Ret ["die"%string] (m, tape).
Proof.
  intros [[Hwf _ _ _] _ _]%reachable_Good [Hs _]%move_point_Ret
    [Hnp Hc]%read_Some Hve Hvf; [|done].
  apply (move_collide m tape d np); [done..|].
  unfold collides. rewrite Hnp, Hc. simpl.
  apply andb_true_iff. split; by apply negb_true_iff, Z.eqb_neq.
Qed.

Lemma body_dies_witness :
  move SOUTH (grown33, []) = Ret ["die"%string] (grown33, []).
Proof.
  apply (body_dies grown33 SOUTH (1, 1) NORTH [] grown33_reachable);
    [reflexivity|reflexivity|unfold NORTH, EMPTY; lia|unfold NORTH, FOOD; lia].
Defined.

(** X10.  In a reachable state with [length ≥ 2], the head cell holds one
    of the four directions, the direction of the last move; stepping back
    from the head to the cell it came from returns ["die"]: the engine
    does not refuse a reversal, it kills the snake. *)
Theorem reversal_dies (m : Map) :
  reachable m → 2 ≤ length m →
  ∃ d0,
    read m (head m) = Some d0 ∧ d0 ∈ [NORTH; EAST; SOUTH; WEST] ∧
    ∀ d back tape,
      move_point back d0 (m, tape) = Ret (head m) (m, tape) →
      move_point (head m) d (m, tape) = Ret back (m, tape) →
      move d (m, tape) = Ret ["die"%string] (m, tape).
Proof.
  intros Hreach Hlen2.
  pose proof (reachable_Good m Hreach) as [[Hwf _ _ _] _ _].
  destruct (reachable_tidy m Hreach) as [ps [Hbody Hoff Hneck]].
  destruct (body_head m ps Hbody) as (_ & Hh & Hhe & Hhf).
  pose proof Hbody as [Hlen _ Hlast [Hnd Hin Hlk Hcl]].
  rewrite last_lookup in Hlast.
  destruct (lookup_lt_is_Some_2 ps (pred (pred (Datatypes.length ps))))
    as [prev Hprev]; [lia|].
  assert (S (pred (pred (Datatypes.length ps))) = pred (Datatypes.length ps))
    as HS by lia.
  rewrite <- HS in Hlast.
  pose proof (Hlk _ _ _ Hprev Hlast) as Hstep.
  pose proof (Hneck _ _ Hprev Hlast) as Hsame.
  assert (head m ≠ prev) as Hne.
  { intros E. rewrite E in Hlast.
    pose proof (NoDup_lookup _ _ _ _ Hnd Hprev Hlast). lia. }
  rewrite Hsame in Hstep.
  pose proof (shift_dir _ _ _ Hstep Hne) as Hd0.
  exists (cell m (head m)). split_and!.
  - by apply read_in.
  - by apply dir_range.
  - intros d back tape [Hb _]%move_point_Ret [Hs _]%move_point_Ret.
    assert (back = prev) as -> by (by eapply shift_inj).
    assert (prev ∈ ps) as Hpin by (by eapply list_elem_of_lookup_2).
    apply (move_collide m tape d prev); [done..|].
    destruct (Hcl prev Hpin) as [H1 H2].
    unfold collides. rewrite (Hin prev Hpin). simpl.
    apply andb_true_iff. split; by apply negb_true_iff, Z.eqb_neq.
Qed.

Lemma reversal_dies_witness :
  ∃ d0, read grown33 (head grown33) = Some d0 ∧
        d0 ∈ [NORTH; EAST; SOUTH; WEST].
Proof.
  destruct (reversal_dies grown33 grown33_reachable) as (d0 & H1 & H2 & _).
  - simpl. lia.
  - by exists d0.
Defined.

(** X11.  A [move] from a reachable state that returns, returns [[]],
    ["eat"] or ["die"], and never changes [width], [height] or the size of
    the list.  It consumes draws only when it eats, and then a positive,
    even number of them from the front of the tape. *)
Theorem move_frame (m : Map) (d : Z) (tape : list Z)
    (ev : list string) (m' : Map) (tape' : list Z) :
  reachable m →
  move d (m, tape) = Ret ev (m', tape') →
  (ev = [] ∨ ev = ["eat"%string] ∨ ev = ["die"%string]) ∧
  width m' = width m ∧ height m' = height m ∧
  Datatypes.length (grid m') = Datatypes.length (grid m) ∧
  (ev ≠ ["eat"%string] → tape' = tape) ∧
  (ev = ["eat"%string] →
   ∃ used, tape = used ++ tape' ∧ used ≠ [] ∧
           Nat.Even (Datatypes.length used)).
Proof.
  intros [HInv _ _]%reachable_Good Hrun.
  destruct (move_cases m tape d HInv)
    as [Hs Hm|np Hs Hc Hm|np fp t1 Hd Hs Hnp Hc Hhit Hfp Hfc Hm
       |np Hd Hs Hnp Hc Hhit Hm|np nt Hd Hs Hnp Hc Hnt Hm];
    rewrite Hm in Hrun; try done; injection Hrun as <- <- <-.
  - split_and!; try done. by right; right.
  - split_and!; try done.
    + by right; left.
    + unfold put. simpl. by rewrite !length_insert.
    + intros _. by eapply first_hit_used.
  - split_and!; try done.
    + by left.
    + unfold put. simpl. by rewrite !length_insert.
Qed.

Lemma move_frame_witness :
  ∃ used, [2; 2] = used ++ [] ∧ used ≠ [] ∧ Nat.Even (Datatypes.length used).
Proof.
  apply (move_frame ahead33 NORTH [2; 2] ["eat"%string] grown33 []
           ahead33_reachable grown33_step).
  reflexivity.
Defined.

(** ** The cells of the body *)

(** X13.  In every reachable state the walk from the tail visits [length]
    different points, and they are exactly the points whose cell is
    neither Empty nor Food: no cell off the body keeps a direction. *)
Theorem body_exact (m : Map) :
  reachable m →
  ∀ tape, ∃ ps,
    follow (Z.to_nat (length m - 1)) (tail m) (m, tape) = Ret ps (m, tape) ∧
    NoDup ps ∧ Z.of_nat (Datatypes.length ps) = length m ∧
    ∀ q, q ∈ ps ↔ ∃ v, read m q = Some v ∧ v ≠ EMPTY ∧ v ≠ FOOD.
Proof.
  intros Hreach tape.
  pose proof (reachable_Good m Hreach) as [[Hwf _ _ _] _ _].
  destruct (reachable_tidy m Hreach) as [ps [Hbody Hoff Hneck]].
  pose proof Hbody as [Hlen Hfirst Hlast [Hnd Hin Hlk Hcl]].
  exists ps. split_and!; [|done..|].
  - replace (Z.to_nat (length m - 1)) with (pred (Datatypes.length ps)) by lia.
    apply follow_chain; [done| |done]. by destruct Hbody.
  - intros q. split.
    + intros Hq. exists (cell m q). destruct (Hcl q Hq).
      split_and!; [|done..]. apply read_in; [done|]. by apply Hin.
    + intros (v & [Hq <-]%read_Some & Hve & Hvf); [|done].
      destruct (decide (q ∈ ps)) as [|Hnot]; [done|].
      destruct (Hoff q Hq Hnot); congruence.
Qed.

Lemma body_exact_witness :
  ∃ ps, follow (Z.to_nat (length grown33 - 1)) (tail grown33) (grown33, [])
        = Ret ps (grown33, []) ∧ NoDup ps.
Proof.
  destruct (body_exact grown33 grown33_reachable []) as (ps & H1 & H2 & _).
  by exists ps.
Defined.

(** * The window *)

(** ** Running the monad of the window *)

Lemma grun_bind {A B} (c : G A) (k : A → G B) (w : world) :
  (c ≫= k) w =
  match c w with
  | GRet a w' => k a w'
  | GRaise e w' => GRaise e w'
  | GStarved => GStarved
  end.
Proof. reflexivity. Qed.

Lemma grun_getg {A B} (f : SnakeGUI → A) (k : A → G B) w :
  (getg f ≫= k) w = k (f (gui w)) w.
Proof. reflexivity. Qed.

Lemma grun_setg {B} (f : SnakeGUI → SnakeGUI) (k : unit → G B) w :
  (setg f ≫= k) w = k tt (mkWorld (f (gui w)) (calls w) (draws w)).
Proof. reflexivity. Qed.

Lemma grun_tk {B} (c : tk_call) (k : unit → G B) w :
  (tk c ≫= k) w = k tt (mkWorld (gui w) (calls w ++ [c]) (draws w)).
Proof. reflexivity. Qed.

Lemma world_eta w : mkWorld (gui w) (calls w) (draws w) = w.
Proof. by destruct w. Qed.

(** ** [draw] *)

Lemma draw_cell_run w p :
  wf (map (gui w)) →
  draw_cell p w =
  GRet tt (mkWorld (gui w) (calls w ++ cell_rects (gui w) p) (draws w)).
Proof.
  intros Hwf. destruct w as [g cs ds]. simpl in Hwf.
  unfold draw_cell, cell_rects. rewrite grun_bind.
  unfold gtry_IndexError. rewrite grun_bind. unfold on_map. simpl.
  destruct (in_bounds (map g) p) eqn:Hin.
  - rewrite getitem_in by done. simpl.
    assert (set_map (map g) g = g) as -> by (by destruct g).
    destruct (cell (map g) p =? FOOD).
    + unfold _draw_food, _draw_point. by destruct p.
    + destruct (cell (map g) p >? EMPTY).
      * unfold _draw_snake, _draw_point. by destruct p.
      * simpl. by rewrite app_nil_r.
  - rewrite getitem_out by done. simpl.
    assert (set_map (map g) g = g) as -> by (by destruct g).
    unfold _draw_wall, _draw_point. by destruct p.
Qed.

Lemma draw_row_run w y xs :
  wf (map (gui w)) →
  for_each xs (λ x, draw_cell (x, y)) w =
  GRet tt (mkWorld (gui w)
             (calls w ++ (x ← xs; cell_rects (gui w) (x, y))) (draws w)).
Proof.
  intros Hwf. revert w Hwf. induction xs as [|x xs IH]; intros w Hwf.
  - simpl. by rewrite app_nil_r, world_eta.
  - cbn [for_each]. rewrite grun_bind, draw_cell_run by done.
    rewrite IH by done. simpl. by rewrite app_assoc.
Qed.

Lemma draw_rows_run w ys :
  wf (map (gui w)) →
  for_each ys (λ y,
    wd ← getg (λ g, width (map g));
    for_each (range (-1) (wd + 1)) (λ x, draw_cell (x, y))) w =
  GRet tt (mkWorld (gui w)
             (calls w ++ (y ← ys; x ← range (-1) (width (map (gui w)) + 1);
                          cell_rects (gui w) (x, y)))
             (draws w)).
Proof.
  intros Hwf. revert w Hwf. induction ys as [|y ys IH]; intros w Hwf.
  - simpl. by rewrite app_nil_r, world_eta.
  - cbn [for_each]. rewrite grun_bind, grun_getg, draw_row_run by done.
    rewrite IH by done. simpl. by rewrite app_assoc.
Qed.

Lemma draw_run w :
  wf (map (gui w)) →
  draw w =
  GRet tt (mkWorld (gui w)
             (calls w ++ canvas_delete_all :: picture (gui w) ++
                [canvas_create_text
                   (Qmake (width (map (gui w)) * scale (gui w)) 2) 10
                   (text (gui w))])
             (draws w)).
Proof.
  intros Hwf. unfold draw. rewrite grun_tk, grun_getg.
  rewrite grun_bind, draw_rows_run by done. simpl.
  rewrite !grun_getg. unfold tk, picture. simpl.
  by rewrite <- !app_assoc.
Qed.

(** ** The handlers, step by step *)

Lemma set_map_same g : set_map (map g) g = g.
Proof. by destruct g. Qed.

Lemma on_eat_run w :
  on_eat w =
  GRet tt (if interval (gui w) >? 10
           then mkWorld (set_interval (interval (gui w) - 10) (gui w))
                  (calls w) (draws w)
           else w).
Proof.
  unfold on_eat. rewrite grun_getg.
  destruct (interval (gui w) >? 10); [done|]. by destruct w.
Qed.

Lemma paused_setter_run v w :
  paused_setter v w =
  GRet tt (mkWorld (set_paused v (gui w))
             (calls w ++ [StringVar_set (if v then "Start" else "Pause");
                          button_update])
             (draws w)).
Proof.
  unfold paused_setter. rewrite grun_setg, grun_getg. simpl.
  destruct v; rewrite grun_tk; unfold tk; simpl; by rewrite <- app_assoc.
Qed.

Lemma new_map_run w :
  new_map 30 30 w =
  match first_hit (fresh 30 30) (draws w) with
  | Some (fp, t') =>
      GRet tt (mkWorld (set_map (put fp FOOD (fresh 30 30)) (gui w))
                 (calls w) t')
  | None => GStarved
  end.
Proof.
  unfold new_map. rewrite init_run by lia.
  by destruct (first_hit (fresh 30 30) (draws w)) as [[fp t']|].
Qed.

Lemma on_die_run w :
  on_die w =
  match first_hit (fresh 30 30) (draws w) with
  | Some (fp, t') =>
      GRet tt
        (mkWorld
           (mkGUI (scale (gui w)) (put fp FOOD (fresh 30 30))
              ("Game over! Score: " +:+ pretty (length (map (gui w)) - 1))
              true NORTH 500)
           (calls w ++ [StringVar_set "Start"; button_update;
                        button_config "Pause"])
           t')
  | None => GStarved
  end.
Proof.
  unfold on_die. rewrite grun_getg, grun_setg, grun_bind, new_map_run. simpl.
  destruct (first_hit (fresh 30 30) (draws w)) as [[fp t']|]; [|done].
  unfold reset. rewrite grun_bind, grun_setg. unfold setg at 1. simpl.
  rewrite grun_bind, paused_setter_run. unfold tk. simpl.
  by rewrite <- app_assoc.
Qed.

Lemma fresh_game_reachable fp t t' :
  first_hit (fresh 30 30) t = Some (fp, t') →
  reachable (put fp FOOD (fresh 30 30)).
Proof.
  intros Hhit. apply (reachable_init 30 30 t t').
  rewrite init_run by lia. by rewrite Hhit.
Qed.

Lemma reachable_wf m : reachable m → wf m.
Proof. by intros [[? _ _ _] _ _]%reachable_Good. Qed.

(** What [_tick] does after it has scheduled the next tick, when the
    window is not paused. *)
Lemma tick_unfold w :
  _tick w =
  let w1 := mkWorld (gui w) (calls w ++ [master_after (interval (gui w))])
              (draws w) in
  if __paused (gui w) then GRet tt w1
  else
    match move (direction (gui w)) (map (gui w), draws w) with
    | Ret ev s =>
        (for_each ev (λ event,
           if bool_decide (event = "eat"%string) then on_eat
           else if bool_decide (event = "die"%string) then on_die
           else mret tt);; draw)
          (mkWorld (set_map s.1 (gui w)) (calls w1) s.2)
    | Raise e s => GRaise e (mkWorld (set_map s.1 (gui w)) (calls w1) s.2)
    | Starved => GStarved
    end.
Proof.
  unfold _tick. rewrite grun_getg, grun_tk. unfold paused.
  rewrite grun_getg. simpl. destruct (__paused (gui w)); simpl; [done|].
  rewrite grun_getg, grun_bind. unfold on_map. simpl.
  by destruct (move _ _) as [ev s|e s|].
Qed.

Lemma on_key_run event w :
  wf (map (gui w)) →
  ∃ g' cs,
    _on_key event w = GRet tt (mkWorld g' (calls w ++ cs) (draws w)) ∧
    map g' = map (gui w) ∧ scale g' = scale (gui w) ∧
    text g' = text (gui w) ∧ interval g' = interval (gui w) ∧
    (direction g' = direction (gui w) ∨
     direction g' ∈ [NORTH; EAST; SOUTH; WEST]).
Proof.
  intros Hwf. unfold _on_key. rewrite grun_bind.
  repeat match goal with
  | |- context [if ?b || ?c then _ else _] => destruct (b || c)
  | |- context [if bool_decide ?P then _ else _] => destruct (bool_decide P)
  end;
  [unfold setg at 1; cbv beta iota; rewrite draw_run by done; cbn [gui calls draws];
   eexists _, _; split_and!;
   [reflexivity|reflexivity..
   |right; apply dir_range; simpl; unfold NORTH, EAST, SOUTH, WEST; lia].. | |].
  - unfold paused. rewrite grun_getg, paused_setter_run.
    rewrite draw_run by done. cbn [gui calls draws].
    rewrite <- app_assoc.
    eexists _, _. split_and!; [reflexivity|reflexivity..|by left].
  - unfold mret, G_ret. rewrite draw_run by done.
    eexists _, _. split_and!; [reflexivity|reflexivity..|by left].
Qed.

Lemma on_button_run w :
  wf (map (gui w)) →
  ∃ cs,
    _on_button w =
    GRet tt (mkWorld (set_paused (negb (__paused (gui w))) (gui w))
               (calls w ++ cs) (draws w)).
Proof.
  intros Hwf. unfold _on_button, paused.
  rewrite grun_getg, grun_bind, paused_setter_run, draw_run by done.
  cbn [gui calls draws]. rewrite <- app_assoc. by eexists.
Qed.

Lemma draw_drawn w :
  wf (map (gui w)) →
  draw w = GRet tt (mkWorld (gui w) (calls w ++ drawn (gui w)) (draws w)).
Proof. intros Hwf. by rewrite draw_run. Qed.

Lemma tick_run w :
  gui_ok w → __paused (gui w) = false →
  match move (direction (gui w)) (map (gui w), draws w) with
  | Ret ev s =>
      reachable s.1 ∧
      ((ev = [] ∧
        let g' := set_map s.1 (gui w) in
        _tick w =
        GRet tt (mkWorld g'
                   (calls w ++ master_after (interval (gui w)) :: drawn g')
                   s.2)) ∨
       (ev = ["eat"%string] ∧
        let g' := set_interval
                    (if interval (gui w) >? 10
                     then interval (gui w) - 10 else interval (gui w))
                    (set_map s.1 (gui w)) in
        _tick w =
        GRet tt (mkWorld g'
                   (calls w ++ master_after (interval (gui w)) :: drawn g')
                   s.2)) ∨
       (ev = ["die"%string] ∧ s = (map (gui w), draws w) ∧
        match first_hit (fresh 30 30) (draws w) with
        | Some (fp, t') =>
            let g' := mkGUI (scale (gui w)) (put fp FOOD (fresh 30 30))
                        ("Game over! Score: " +:+
                         pretty (length (map (gui w)) - 1))
                        true NORTH 500 in
            _tick w =
            GRet tt
              (mkWorld g'
                 (calls w ++ master_after (interval (gui w)) ::
                    [StringVar_set "Start"; button_update;
                     button_config "Pause"] ++ drawn g')
                 t')
        | None => _tick w = GStarved
        end))
  | Raise e s => False
  | Starved => _tick w = GStarved
  end.
Proof.
  intros [Hreach Hsize Hscale Hdir Hint] Hp.
  pose proof (reachable_Good _ Hreach) as [HInv _ _].
  apply dir_range in Hdir.
  rewrite tick_unfold, Hp. cbv zeta. cbn [calls].
  destruct (move_cases (map (gui w)) (draws w) (direction (gui w)) HInv)
    as [Hs Hm|np Hs Hc Hm|np fp t1 Hd Hs Hnp Hc Hhit Hfp Hfc Hm
       |np Hd Hs Hnp Hc Hhit Hm|np nt Hd Hs Hnp Hc Hnt Hm].
  - apply shift_None in Hs. lia.
  - rewrite Hm. cbn [fst snd]. split; [done|]. right; right.
    split_and!; [done..|].
    cbn [for_each]. rewrite set_map_same.
    rewrite !grun_bind. simpl bool_decide.
    rewrite on_die_run. cbn [gui calls draws].
    destruct (first_hit (fresh 30 30) (draws w)) as [[fp t']|] eqn:Hhit; [|done].
    unfold mret at 1, G_ret at 1.
    rewrite draw_drawn
      by (cbn [gui map]; eapply reachable_wf, fresh_game_reachable; done).
    cbn [gui calls draws]. by rewrite <- !app_assoc.
  - rewrite Hm. cbn [fst snd].
    assert (reachable (put np (direction (gui w))
              (set_length (length (map (gui w)) + 1)
                 (put fp FOOD (set_head np
                    (put (head (map (gui w))) (direction (gui w))
                       (map (gui w)))))))) as Hreach'
      by (eapply reachable_move; [exact Hreach|exact Hm]).
    split; [done|]. right; left. split; [done|].
    cbn [for_each]. rewrite !grun_bind. simpl bool_decide.
    rewrite on_eat_run. cbn [gui calls draws interval set_map].
    destruct (interval (gui w) >? 10);
      unfold mret at 1, G_ret at 1;
      (rewrite draw_drawn by (cbn [gui map set_interval set_map];
                              by apply reachable_wf));
      cbn [gui calls draws]; rewrite <- !app_assoc;
      destruct w as [[] ? ?]; reflexivity.
  - by rewrite Hm.
  - rewrite Hm. cbn [fst snd].
    assert (reachable (put np (direction (gui w))
              (set_tail nt (put (tail (map (gui w))) EMPTY
                 (set_head np
                    (put (head (map (gui w))) (direction (gui w))
                       (map (gui w)))))))) as Hreach'
      by (eapply reachable_move; [exact Hreach|exact Hm]).
    split; [done|]. left. split; [done|].
    cbn [for_each]. unfold mret at 1, G_ret at 1.
    rewrite grun_bind.
    rewrite draw_drawn by (cbn [gui map set_map]; by apply reachable_wf).
    cbn [gui calls draws]. by rewrite <- !app_assoc.
Qed.

Lemma move_dims m d t ev m' t' :
  reachable m → move d (m, t) = Ret ev (m', t') →
  width m' = width m ∧ height m' = height m.
Proof.
  intros [HInv _ _]%reachable_Good Hrun.
  destruct (move_cases m t d HInv)
    as [Hs Hm|np Hs Hc Hm|np fp t1 Hd Hs Hnp Hc Hhit Hfp Hfc Hm
       |np Hd Hs Hnp Hc Hhit Hm|np nt Hd Hs Hnp Hc Hnt Hm];
    rewrite Hm in Hrun; try done; by injection Hrun as _ <- _.
Qed.

Lemma init_world_run tape :
  SnakeGUI__init__ tape =
  match first_hit (fresh 30 30) tape with
  | Some (fp, t') =>
      Built (mkWorld
               (mkGUI 20 (put fp FOOD (fresh 30 30)) "" true NORTH 500)
               [Tk_new; wm_title "Snake"; Canvas_new 600 600; StringVar_new;
                StringVar_set "Start"; Button_new; canvas_pack; button_pack]
               t')
  | None => BuildStarved
  end.
Proof.
  unfold SnakeGUI__init__. rewrite init_run by lia.
  by destruct (first_hit (fresh 30 30) tape) as [[fp t']|].
Qed.

Lemma running_ok w : running w → gui_ok w.
Proof.
  induction 1 as [tape w Hinit|w w' _ IH Hrun|w w' event _ IH Hrun
                 |w w' _ IH Hrun].
  - rewrite init_world_run in Hinit.
    destruct (first_hit (fresh 30 30) tape) as [[fp t']|] eqn:Hhit; [|done].
    injection Hinit as <-. split; cbn [gui map scale direction interval].
    + by eapply fresh_game_reachable.
    + done.
    + done.
    + apply dir_range. unfold NORTH. lia.
    + done.
  - destruct (__paused (gui w)) eqn:Hp.
    + rewrite tick_unfold, Hp in Hrun. injection Hrun as <-.
      by destruct IH.
    + pose proof (tick_run w IH Hp) as Hcase.
      pose proof IH as [Hreach [Hw Hh] Hscale Hdir [Hint Hmod]].
      destruct (move _ _) as [ev [m' t']|e s|] eqn:Hm; [|done|congruence].
      destruct (move_dims _ _ _ _ _ _ Hreach Hm) as [Hw' Hh'].
      cbn [fst snd] in Hcase.
      destruct Hcase as [Hreach' [(_ & Ht)|[(_ & Ht)|(_ & _ & Ht)]]].
      * rewrite Ht in Hrun. injection Hrun as <-.
        split; cbn [gui map set_map scale direction interval]; try done.
        split; congruence.
      * rewrite Ht in Hrun. injection Hrun as <-.
        split; cbn [gui map set_map set_interval scale direction interval];
          try done; [split; congruence|].
        destruct (interval (gui w) >? 10) eqn:E; [|done].
        assert (interval (gui w) = 10 * (interval (gui w) / 10)) as Hdiv
          by (apply Z.div_exact; lia).
        split; [lia|]. rewrite <- Zminus_mod_idemp_l, Hmod. done.
      * destruct (first_hit (fresh 30 30) (draws w)) as [[fp t'']|] eqn:Hhit;
          [|congruence].
        rewrite Ht in Hrun. injection Hrun as <-.
        split; cbn [gui map scale direction interval]; try done.
        -- by eapply fresh_game_reachable.
        -- apply dir_range. unfold NORTH. lia.
  - pose proof IH as [Hreach [Hw Hh] Hscale Hdir [Hint Hmod]].
    destruct (on_key_run event w (reachable_wf _ Hreach))
      as (g' & cs & Hk & Hmap & Hsc & _ & Hi & Hd).
    rewrite Hk in Hrun. injection Hrun as <-.
    split; cbn [gui]; rewrite ?Hmap, ?Hsc, ?Hi; try done.
    destruct Hd as [-> | ?]; done.
  - pose proof IH as [Hreach [Hw Hh] Hscale Hdir [Hint Hmod]].
    destruct (on_button_run w (reachable_wf _ Hreach)) as (cs & Hb).
    rewrite Hb in Hrun. by injection Hrun as <-.
Qed.

(** An opening world. *)
Lemma first_world :
  ∃ w, SnakeGUI__init__ [0; 0] = Built w ∧ __paused (gui w) = true.
Proof.
  rewrite init_world_run.
  assert (is_Some (first_hit (fresh 30 30) [0; 0])) as [[fp t'] ->]
    by (apply off_center_hit; [lia..|by vm_compute]).
  eexists. split; reflexivity.
Qed.

(** ** What [draw] paints *)

Lemma elem_of_range x a b : x ∈ range a b ↔ a ≤ x < b.
Proof. unfold range. rewrite elem_of_seqZ. lia. Qed.

Lemma elem_of_cell_rects g p c :
  wf (map g) →
  c ∈ cell_rects g p ↔
  ∃ color,
    c = canvas_create_rectangle (p.1 * scale g) (p.2 * scale g)
          (p.1 * scale g + scale g) (p.2 * scale g + scale g) color ∧
    ((read (map g) p = None ∧ color = "black"%string) ∨
     (read (map g) p = Some FOOD ∧ color = "blue"%string) ∨
     (∃ v, read (map g) p = Some v ∧ v ≠ FOOD ∧ EMPTY < v ∧
           color = "black"%string)).
Proof.
  intros Hwf. unfold cell_rects. cbv zeta.
  destruct (in_bounds (map g) p) eqn:Hin.
  - rewrite read_in by done.
    destruct (cell (map g) p =? FOOD) eqn:E1;
      [|destruct (cell (map g) p >? EMPTY) eqn:E2].
    + rewrite list_elem_of_singleton. split.
      * intros ->. eexists. split; [done|]. right; left.
        split; [|done]. f_equal. lia.
      * intros (color & -> & [[? _]|[[_ ->]|(v & [= <-] & ? & _)]]);
          [done|done|lia].
    + rewrite list_elem_of_singleton. split.
      * intros ->. eexists. split; [done|]. right; right.
        exists (cell (map g) p). split_and!; [done|lia|lia|done].
      * intros (color & -> & [[? _]|[[[= ?] _]|(v & _ & _ & _ & ->)]]);
          [done|lia|done].
    + rewrite elem_of_nil. split; [done|].
      intros (color & _ & [[? _]|[[[= ?] _]|(v & [= <-] & _ & ? & _)]]);
        [done|lia|lia].
  - rewrite read_out by done. rewrite list_elem_of_singleton. split.
    + intros ->. eexists. split; [done|]. by left.
    + intros (color & -> & [[_ ->]|[[? _]|(v & ? & _)]]); done.
Qed.

Lemma blue_cell g p fp :
  wf (map g) → food_at (map g) fp →
  Datatypes.length (filter (λ c, is_blue c = true) (cell_rects g p)) =
  if decide (p = fp) then 1%nat else 0%nat.
Proof.
  intros Hwf (Hfp & Hfc & Huniq). unfold cell_rects. cbv zeta.
  destruct (in_bounds (map g) p) eqn:Hin.
  - destruct (cell (map g) p =? FOOD) eqn:E1.
    + rewrite decide_True by (apply Huniq; [done|lia]). done.
    + rewrite decide_False by (intros ->; lia).
      by destruct (cell (map g) p >? EMPTY).
  - rewrite decide_False by (intros ->; congruence). done.
Qed.

Lemma count_one (l : list Z) (x : Z) :
  NoDup l →
  Datatypes.length (filter (λ z, z = x) l) =
  if decide (x ∈ l) then 1%nat else 0%nat.
Proof.
  induction 1 as [|z l Hz Hnd IH]; [done|].
  rewrite filter_cons. destruct (decide (z = x)) as [->|Hne].
  - simpl. rewrite IH, decide_False by done.
    rewrite decide_True; [done|by left].
  - rewrite IH. destruct (decide (x ∈ l)).
    + rewrite decide_True; [done|by right].
    + rewrite decide_False; [done|].
      intros [?|?]%elem_of_cons; congruence.
Qed.

Lemma blue_row g y xs fp :
  wf (map g) → food_at (map g) fp →
  Datatypes.length
    (filter (λ c, is_blue c = true) (x ← xs; cell_rects g (x, y))) =
  if decide (y = fp.2)
  then Datatypes.length (filter (λ z, z = fp.1) xs) else 0%nat.
Proof.
  intros Hwf Hfood. induction xs as [|x xs IH].
  - simpl. by case_decide.
  - rewrite bind_cons, filter_app, length_app, IH, (blue_cell g (x, y) fp) by done.
    rewrite filter_cons. destruct fp as [fx fy]. simpl.
    repeat case_decide; simplify_eq/=; try done; congruence.
Qed.

Lemma blue_rows g ys xs fp :
  wf (map g) → food_at (map g) fp → NoDup xs → fp.1 ∈ xs →
  Datatypes.length
    (filter (λ c, is_blue c = true)
       (y ← ys; x ← xs; cell_rects g (x, y))) =
  Datatypes.length (filter (λ z, z = fp.2) ys).
Proof.
  intros Hwf Hfood Hnd Hin. induction ys as [|y ys IH]; [done|].
  rewrite bind_cons, filter_app, length_app, IH, (blue_row g y xs fp) by done.
  rewrite (count_one xs fp.1 Hnd), (decide_True (P := fp.1 ∈ xs)) by done.
  rewrite filter_cons. by repeat case_decide.
Qed.

Lemma picture_rect g c :
  c ∈ picture g → ∃ x0 y0 x1 y1 fill, c = canvas_create_rectangle x0 y0 x1 y1 fill.
Proof.
  unfold picture. intros (y & (x & Hc & _)%list_elem_of_bind & _)%list_elem_of_bind.
  unfold cell_rects in Hc. cbv zeta in Hc.
  destruct (in_bounds _ _); [destruct (_ =? _); [|destruct (_ >? _)]|];
    try (apply list_elem_of_singleton in Hc as ->; by eexists _, _, _, _, _).
  by apply elem_of_nil in Hc.
Qed.

Lemma drawn_no_after g ms : master_after ms ∉ drawn g.
Proof.
  unfold drawn. intros [?|[Hp|?%list_elem_of_singleton]%elem_of_app]%elem_of_cons;
    [done| |done].
  by apply picture_rect in Hp as (? & ? & ? & ? & ? & ?).
Qed.

Lemma speed_floor i : 10 ≤ i → i mod 10 = 0 →
  (if i >? 10 then i - 10 else i) = Z.max 10 (i - 10).
Proof.
  intros Hi Hmod. assert (i = 10 * (i / 10)) by (apply Z.div_exact; lia).
  destruct (i >? 10) eqn:E; lia.
Qed.

(** ** The properties of the window *)

(** X14.  On a window whose map is a reachable game, [draw] raises
    nothing and changes neither the attributes nor the tape.  It clears
    the canvas, paints rectangles and then the text.  Over the frame
    [[-1,width] × [-1,height]] it paints one black rectangle for every
    point outside the grid and for every cell of the body, one blue
    rectangle for the food, and nothing for an Empty cell; exactly one
    rectangle is blue. *)
Theorem draw_paints (w : world) :
  reachable (map (gui w)) →
  ∃ rects,
    draw w =
    GRet tt (mkWorld (gui w)
               (calls w ++ canvas_delete_all :: rects ++
                  [canvas_create_text
                     (Qmake (width (map (gui w)) * scale (gui w)) 2) 10
                     (text (gui w))])
               (draws w)) ∧
    (∀ c, c ∈ rects ↔
       ∃ x y color,
         c = canvas_create_rectangle
               (x * scale (gui w)) (y * scale (gui w))
               (x * scale (gui w) + scale (gui w))
               (y * scale (gui w) + scale (gui w)) color ∧
         -1 ≤ x ≤ width (map (gui w)) ∧ -1 ≤ y ≤ height (map (gui w)) ∧
         ((read (map (gui w)) (x, y) = None ∧ color = "black"%string) ∨
          (read (map (gui w)) (x, y) = Some FOOD ∧ color = "blue"%string) ∨
          (∃ v, read (map (gui w)) (x, y) = Some v ∧ v ≠ FOOD ∧ EMPTY < v ∧
                color = "black"%string))) ∧
    Datatypes.length (filter (λ c, is_blue c = true) rects) = 1%nat.
Proof.
  intros Hreach.
  pose proof (reachable_Good _ Hreach) as [[Hwf _ _ _] [fp Hfood] _].
  exists (picture (gui w)). split_and!.
  - by apply draw_run.
  - intros c. unfold picture. rewrite list_elem_of_bind. split.
    + intros (y & (x & Hc & Hx%elem_of_range)%list_elem_of_bind
                & Hy%elem_of_range).
      apply elem_of_cell_rects in Hc as (color & -> & Hcases); [|done].
      exists x, y, color. split_and!; [done|lia..|done].
    + intros (x & y & color & -> & Hx & Hy & Hcases).
      exists y. split; [|apply elem_of_range; lia].
      apply list_elem_of_bind. exists x. split; [|apply elem_of_range; lia].
      apply elem_of_cell_rects; [done|]. by exists color.
  - unfold picture. rewrite (blue_rows _ _ _ fp); try done.
    + rewrite count_one by apply NoDup_seqZ.
      rewrite decide_True; [done|].
      destruct Hfood as [[_ Hy]%in_bounds_spec _]. apply elem_of_range. lia.
    + apply NoDup_seqZ.
    + destruct Hfood as [[Hx _]%in_bounds_spec _]. apply elem_of_range. lia.
Qed.

Lemma draw_paints_witness :
  ∃ rects cs,
    draw small_window = GRet tt (mkWorld (gui small_window) cs []) ∧
    Datatypes.length (filter (λ c, is_blue c = true) rects) = 1%nat.
Proof.
  destruct (draw_paints small_window corner33_reachable) as (rects & H1 & _ & H3).
  exists rects. eexists. split; [exact H1|exact H3].
Defined.

(** X15.  [on_eat] takes 10 off the interval but never goes below 10:
    from an interval that is a multiple of 10 and at least 10, [n] calls
    leave [max(10, interval - 10 n)], and change nothing else. *)
Theorem eating_speeds_up (w : world) (n : nat) :
  10 ≤ interval (gui w) → interval (gui w) mod 10 = 0 →
  times n on_eat w =
  GRet tt (mkWorld
             (set_interval (Z.max 10 (interval (gui w) - 10 * Z.of_nat n))
                (gui w))
             (calls w) (draws w)).
Proof.
  revert w. induction n as [|n IH]; intros w Hi Hmod.
  - cbn [times]. replace (Z.max 10 (interval (gui w) - 10 * Z.of_nat 0))
      with (interval (gui w)) by lia.
    by destruct w as [[] ? ?].
  - cbn [times]. rewrite grun_bind, on_eat_run.
    assert (interval (gui w) = 10 * (interval (gui w) / 10)) as Hdiv
      by (apply Z.div_exact; lia).
    destruct (interval (gui w) >? 10) eqn:E.
    + rewrite IH; cbn [gui calls draws interval set_interval].
      * unfold set_interval. cbn. do 3 f_equal. lia.
      * lia.
      * by rewrite <- Zminus_mod_idemp_l, Hmod.
    + rewrite IH by done. do 3 f_equal. lia.
Qed.

Lemma eating_speeds_up_witness :
  times 60 on_eat small_window =
  GRet tt (mkWorld (mkGUI 20 corner33 "" false NORTH 10) [] []).
Proof.
  apply (eating_speeds_up small_window 60); [simpl; lia|reflexivity].
Defined.

(** X16.  In every world of the event loop the map is a reachable 30 by
    30 game, the scale is 20, the direction is one of the four, and the
    interval is a multiple of 10 between 10 and 500. *)
Theorem window_invariant (w : world) :
  running w →
  reachable (map (gui w)) ∧
  width (map (gui w)) = 30 ∧ height (map (gui w)) = 30 ∧
  scale (gui w) = 20 ∧
  direction (gui w) ∈ [NORTH; EAST; SOUTH; WEST] ∧
  10 ≤ interval (gui w) ≤ 500 ∧ interval (gui w) mod 10 = 0.
Proof. intros [? [??] ? ? [??]]%running_ok. done. Qed.

Lemma window_invariant_witness :
  ∃ w, running w ∧ direction (gui w) ∈ [NORTH; EAST; SOUTH; WEST].
Proof.
  destruct first_world as (w & Hw & _). exists w.
  assert (running w) as Hrun by (exact (running_init [0; 0] w Hw)).
  split; [exact Hrun|].
  apply (window_invariant w Hrun).
Defined.

(** X20.  When [move] reports "eat" on a tick of a window whose map is a
    reachable game, the tick returns; the interval has gone down by 10,
    unless it was 10 or less already, and the window holds the grown
    snake; direction, text and the paused flag are as they were. *)
Theorem tick_eats (w : world) (s : state) :
  reachable (map (gui w)) →
  __paused (gui w) = false →
  move (direction (gui w)) (map (gui w), draws w) = Ret ["eat"%string] s →
  ∃ w',
    _tick w = GRet tt w' ∧
    interval (gui w') =
      (if interval (gui w) >? 10 then interval (gui w) - 10
       else interval (gui w)) ∧
    map (gui w') = s.1 ∧ draws w' = s.2 ∧
    length (map (gui w')) = length (map (gui w)) + 1 ∧
    direction (gui w') = direction (gui w) ∧
    text (gui w') = text (gui w) ∧ __paused (gui w') = false.
Proof.
  intros Hreach Hp Hm. destruct s as [m' t'].
  assert (reachable m') as Hreach' by (by eapply reachable_move).
  assert (length m' = length (map (gui w)) + 1) as Hlen.
  { pose proof (reachable_Good _ Hreach) as [HInv _ _].
    destruct (move_cases (map (gui w)) (draws w) (direction (gui w)) HInv)
      as [Hs Hm'|np Hs Hc Hm'|np fp t1 Hd Hs Hnp Hc Hhit Hfp Hfc Hm'
         |np Hd Hs Hnp Hc Hhit Hm'|np nt Hd Hs Hnp Hc Hnt Hm'];
      rewrite Hm' in Hm; try done. by injection Hm as <- _. }
  rewrite tick_unfold, Hp, Hm. cbv zeta. cbn [calls for_each fst snd].
  rewrite !grun_bind. simpl bool_decide.
  rewrite on_eat_run. cbn [gui calls draws interval set_map].
  destruct (interval (gui w) >? 10);
    unfold mret at 1, G_ret at 1;
    (rewrite draw_drawn by (cbn [gui map set_interval set_map];
                            by apply reachable_wf));
    eexists; (split; [reflexivity|]); cbn; by rewrite Hp.
Qed.

Lemma tick_eats_witness :
  ∃ w', _tick hungry_window = GRet tt w' ∧ interval (gui w') = 490.
Proof.
  destruct (tick_eats hungry_window (grown33, []) ahead33_reachable
              eq_refl grown33_step) as (w' & H1 & H2 & _).
  exists w'. split; [exact H1|exact H2].
Defined.

(** X21.  [SnakeGUI()] never raises.  When it returns, the window is
    paused, with scale 20, direction North, interval 500, empty text and
    a fresh 30 by 30 game whose snake is one cell at [(15, 15)]; it has
    asked for a canvas of 600 by 600 and set the button text to "Start".
    It returns exactly when some pair of draws falls off the centre. *)
Theorem window_built (tape : list Z) :
  (∀ e, SnakeGUI__init__ tape ≠ BuildRaise e) ∧
  (∀ w, SnakeGUI__init__ tape = Built w →
     scale (gui w) = 20 ∧ __paused (gui w) = true ∧
     direction (gui w) = NORTH ∧ interval (gui w) = 500 ∧
     text (gui w) = ""%string ∧
     reachable (map (gui w)) ∧
     width (map (gui w)) = 30 ∧ height (map (gui w)) = 30 ∧
     length (map (gui w)) = 1 ∧ head (map (gui w)) = (15, 15) ∧
     Canvas_new 600 600 ∈ calls w ∧ StringVar_set "Start" ∈ calls w ∧
     ∃ used, tape = used ++ draws w ∧ used ≠ [] ∧
             Nat.Even (Datatypes.length used)) ∧
  (off_center 30 30 tape = true ↔ ∃ w, SnakeGUI__init__ tape = Built w).
Proof.
  rewrite init_world_run. split_and!.
  - intros e. by destruct (first_hit (fresh 30 30) tape) as [[fp t']|].
  - intros w Hb.
    destruct (first_hit (fresh 30 30) tape) as [[fp t']|] eqn:Hhit; [|done].
    injection Hb as <-. cbn [gui calls draws].
    split_and!; try reflexivity.
    + by eapply fresh_game_reachable.
    + do 2 right. by left.
    + do 4 right. by left.
    + by eapply first_hit_used.
  - rewrite off_center_hit by lia. split.
    + intros [[fp t'] ->]. by eexists.
    + intros [w Hb].
      destruct (first_hit (fresh 30 30) tape) as [[fp t']|]; [by eexists|done].
Qed.

(** ** Handlers that run inside [update()] *)

Lemma tame_ret : tame (mret tt).
Proof.
  intros w Hw. split; [done|]. intros w' [= <-]. split; [done|].
  exists []. by rewrite app_nil_r.
Qed.

Lemma tame_bind (c k : G unit) : tame c → tame k → tame (c;; k).
Proof.
  intros Hc Hk w Hw. destruct (Hc w Hw) as [Hc1 Hc2].
  rewrite grun_bind. destruct (c w) as [[] w1|e w1|] eqn:E.
  - destruct (Hc2 w1 eq_refl) as [Hw1 [cs1 Hcs1]].
    destruct (Hk w1 Hw1) as [Hk1 Hk2]. split; [done|].
    intros w' Hrun. destruct (Hk2 w' Hrun) as [Hw' [cs2 Hcs2]].
    split; [done|]. exists (cs1 ++ cs2). by rewrite Hcs2, Hcs1, app_assoc.
  - by destruct (Hc1 e w1).
  - done.
Qed.

Lemma tame_getg {A} (f : SnakeGUI → A) (k : A → G unit) :
  (∀ a, tame (k a)) → tame (getg f ≫= k).
Proof. intros Hk w Hw. rewrite grun_getg. by apply Hk. Qed.

Lemma tame_tk c : tame (tk c).
Proof.
  intros w Hw. split; [done|]. intros w' [= <-]. split; [done|]. by eexists.
Qed.

Lemma tame_setg (f : SnakeGUI → SnakeGUI) :
  (∀ g, map (f g) = map g) →
  (∀ g, direction (f g) = direction g ∨
        direction (f g) ∈ [NORTH; EAST; SOUTH; WEST]) →
  tame (setg f).
Proof.
  intros Hmap Hdir w [Hreach Hd]. split; [done|]. intros w' [= <-].
  split; [|exists []; by rewrite app_nil_r].
  split; cbn [gui]; [by rewrite Hmap|].
  destruct (Hdir (gui w)) as [-> | ?]; done.
Qed.

Lemma tame_draw : tame draw.
Proof.
  intros w [Hreach Hd]. rewrite draw_drawn by (by apply reachable_wf).
  split; [done|]. intros w' [= <-]. split; [done|]. by eexists.
Qed.

Lemma tame_set_direction d :
  d ∈ [NORTH; EAST; SOUTH; WEST] → tame (setg (set_direction d)).
Proof. intros Hd. apply tame_setg; [done|]. intros g. by right. Qed.

Lemma tame_reset : tame reset.
Proof.
  unfold reset. apply tame_bind.
  - apply tame_set_direction, dir_range. unfold NORTH. lia.
  - apply tame_setg; [done|]. intros g. by left.
Qed.

Lemma tame_on_eat : tame on_eat.
Proof.
  unfold on_eat. apply tame_getg. intros i.
  destruct (i >? 10); [|apply tame_ret].
  apply tame_setg; [done|]. intros g. by left.
Qed.

Lemma tame_new_map : tame (new_map 30 30).
Proof.
  intros w [Hreach Hd]. rewrite new_map_run.
  destruct (first_hit (fresh 30 30) (draws w)) as [[fp t']|] eqn:Hhit; [|done].
  split; [done|]. intros w' [= <-]. split; [|exists []; by rewrite app_nil_r].
  split; cbn [gui]; [|done]. by eapply fresh_game_reachable.
Qed.

Lemma tame_paused_setter upd v : tame upd → tame (Nested.paused_setter upd v).
Proof.
  intros Hupd. unfold Nested.paused_setter.
  apply tame_bind; [apply tame_setg; [done|]; intros g; by left|].
  apply tame_getg. intros p.
  apply tame_bind; [destruct p; apply tame_tk|].
  apply tame_bind; [apply tame_tk|done].
Qed.

Lemma tame_on_die upd : tame upd → tame (Nested.on_die upd).
Proof.
  intros Hupd. unfold Nested.on_die. apply tame_getg. intros n.
  apply tame_bind; [apply tame_setg; [done|]; intros g; by left|].
  apply tame_bind; [apply tame_new_map|].
  apply tame_bind; [apply tame_reset|].
  apply tame_bind; [by apply tame_paused_setter|apply tame_tk].
Qed.

Lemma tame_on_button upd : tame upd → tame (Nested._on_button upd).
Proof.
  intros Hupd. unfold Nested._on_button, paused. apply tame_getg. intros p.
  apply tame_bind; [by apply tame_paused_setter|apply tame_draw].
Qed.

Lemma tame_on_key upd event : tame upd → tame (Nested._on_key upd event).
Proof.
  intros Hupd. unfold Nested._on_key.
  apply tame_bind; [|apply tame_draw].
  repeat match goal with
  | |- tame (if ?b || ?c then _ else _) =>
      destruct (b || c);
      [apply tame_set_direction, dir_range;
       unfold NORTH, EAST, SOUTH, WEST; lia|]
  end.
  destruct (bool_decide _); [|apply tame_ret].
  unfold paused. apply tame_getg. intros p. by apply tame_paused_setter.
Qed.

Lemma tame_events upd ev :
  tame upd →
  tame (for_each ev (λ event : string,
          if bool_decide (event = "eat"%string) then on_eat
          else if bool_decide (event = "die"%string) then Nested.on_die upd
          else mret tt)).
Proof.
  intros Hupd. induction ev as [|event ev IH]; [apply tame_ret|].
  cbn [for_each]. apply tame_bind; [|done].
  destruct (bool_decide _); [apply tame_on_eat|].
  destruct (bool_decide _); [by apply tame_on_die|apply tame_ret].
Qed.

(** [self.map.move(self.direction)] in a sane window. *)
Lemma sane_move w :
  sane w →
  match on_map (move (direction (gui w))) w with
  | GRet ev w1 => sane w1 ∧ calls w1 = calls w
  | GRaise e w1 => False
  | GStarved => True
  end.
Proof.
  intros [Hreach Hd]. unfold on_map.
  pose proof (reachable_Good _ Hreach) as [HInv _ _].
  destruct (move_cases (map (gui w)) (draws w) (direction (gui w)) HInv)
    as [Hs Hm|np Hs Hc Hm|np fp t1 Hd' Hs Hnp Hc Hhit Hfp Hfc Hm
       |np Hd' Hs Hnp Hc Hhit Hm|np nt Hd' Hs Hnp Hc Hnt Hm].
  - apply dir_range in Hd. apply shift_None in Hs. lia.
  - rewrite Hm. cbn. by rewrite set_map_same.
  - pose proof (reachable_move _ _ _ _ _ _ Hreach Hm) as Hreach'.
    rewrite Hm. by split; [split|].
  - by rewrite Hm.
  - pose proof (reachable_move _ _ _ _ _ _ Hreach Hm) as Hreach'.
    rewrite Hm. by split; [split|].
Qed.

Lemma tame_tick upd : tame upd → tame (Nested._tick upd).
Proof.
  intros Hupd. unfold Nested._tick. apply tame_getg. intros i.
  apply tame_bind; [apply tame_tk|].
  unfold paused. apply tame_getg. intros p.
  destruct p; [apply tame_ret|]. cbn [negb].
  intros w Hw. rewrite grun_getg, grun_bind.
  pose proof (sane_move w Hw) as Hmove.
  destruct (on_map _ w) as [ev w1|e w1|]; [|done|done].
  destruct Hmove as [Hw1 Hcalls].
  destruct (tame_bind _ _ (tame_events upd ev Hupd) tame_draw w1 Hw1)
    as [H1 H2].
  split; [done|]. intros w' Hrun.
  destruct (H2 w' Hrun) as [Hw' [cs Hcs]]. split; [done|].
  exists cs. by rewrite Hcs, Hcalls.
Qed.

Lemma tame_update s : tame (Nested.update s).
Proof.
  induction s as [|h inner IHinner next IHnext]; [apply tame_ret|].
  cbn [Nested.update]. apply tame_bind; [|done].
  destruct h; cbn [Nested.run_handler].
  - by apply tame_tick.
  - by apply tame_on_key.
  - by apply tame_on_button.
Qed.

Lemma nested_paused_setter_run upd v w :
  Nested.paused_setter upd v w =
  upd (mkWorld (set_paused v (gui w))
         (calls w ++ [StringVar_set (if v then "Start" else "Pause");
                      button_update])
         (draws w)).
Proof.
  unfold Nested.paused_setter. rewrite grun_setg, grun_getg. cbn [gui __paused set_paused].
  destruct v; rewrite !grun_tk; cbn [gui calls draws]; by rewrite <- app_assoc.
Qed.

Lemma nested_on_die_run upd w :
  Nested.on_die upd w =
  match first_hit (fresh 30 30) (draws w) with
  | Some (fp, t') =>
      match
        upd (mkWorld
               (mkGUI (scale (gui w)) (put fp FOOD (fresh 30 30))
                  ("Game over! Score: " +:+ pretty (length (map (gui w)) - 1))
                  true NORTH 500)
               (calls w ++ [StringVar_set "Start"; button_update])
               t')
      with
      | GRet _ w2 =>
          GRet tt (mkWorld (gui w2) (calls w2 ++ [button_config "Pause"])
                     (draws w2))
      | GRaise e w2 => GRaise e w2
      | GStarved => GStarved
      end
  | None => GStarved
  end.
Proof.
  unfold Nested.on_die.
  rewrite grun_getg, grun_setg, grun_bind, new_map_run. cbn [gui calls draws].
  destruct (first_hit (fresh 30 30) (draws w)) as [[fp t']|]; [|done].
  unfold reset. rewrite grun_bind, grun_setg. unfold setg at 1.
  cbn [gui calls draws]. rewrite grun_bind, nested_paused_setter_run.
  cbn [gui calls draws]. by destruct (upd _) as [[] w2|e w2|].
Qed.

Lemma nested_tick_unfold upd w :
  Nested._tick upd w =
  let w1 := mkWorld (gui w) (calls w ++ [master_after (interval (gui w))])
              (draws w) in
  if __paused (gui w) then GRet tt w1
  else
    match move (direction (gui w)) (map (gui w), draws w) with
    | Ret ev s =>
        (for_each ev (λ event,
           if bool_decide (event = "eat"%string) then on_eat
           else if bool_decide (event = "die"%string) then Nested.on_die upd
           else mret tt);; draw)
          (mkWorld (set_map s.1 (gui w)) (calls w1) s.2)
    | Raise e s => GRaise e (mkWorld (set_map s.1 (gui w)) (calls w1) s.2)
    | Starved => GStarved
    end.
Proof.
  unfold Nested._tick. rewrite grun_getg, grun_tk. unfold paused.
  rewrite grun_getg. simpl. destruct (__paused (gui w)); simpl; [done|].
  rewrite grun_getg, grun_bind. unfold on_map. simpl.
  by destruct (move _ _) as [ev s|e s|].
Qed.

(** A dying tick, up to the call of [update()] and after it. *)
Lemma nested_tick_die upd w s :
  __paused (gui w) = false →
  move (direction (gui w)) (map (gui w), draws w) = Ret ["die"%string] s →
  Nested._tick upd w =
  match first_hit (fresh 30 30) s.2 with
  | Some (fp, t') =>
      match
        upd (mkWorld
               (mkGUI (scale (gui w)) (put fp FOOD (fresh 30 30))
                  ("Game over! Score: " +:+ pretty (length s.1 - 1))
                  true NORTH 500)
               (calls w ++ [master_after (interval (gui w));
                            StringVar_set "Start"; button_update])
               t')
      with
      | GRet _ w2 =>
          draw (mkWorld (gui w2) (calls w2 ++ [button_config "Pause"])
                  (draws w2))
      | GRaise e w2 => GRaise e w2
      | GStarved => GStarved
      end
  | None => GStarved
  end.
Proof.
  intros Hp Hm. rewrite nested_tick_unfold, Hp, Hm. cbv zeta.
  cbn [calls for_each]. rewrite !grun_bind.
  rewrite bool_decide_eq_false_2, bool_decide_eq_true_2 by done.
  rewrite nested_on_die_run. cbn [gui calls draws map set_map scale].
  destruct (first_hit (fresh 30 30) s.2) as [[fp t']|]; [|done].
  rewrite <- app_assoc. cbn [app].
  by destruct (upd _) as [[] w2|e w2|].
Qed.

Lemma small_window_sane : sane small_window.
Proof.
  split; [apply corner33_reachable|]. apply dir_range.
  cbn. unfold NORTH. lia.
Qed.

Lemma doomed_window_sane : sane doomed_window.
Proof.
  split; [apply top33_reachable|]. apply dir_range.
  cbn. unfold NORTH. lia.
Qed.

(** What the events of a tick add to the log. *)
Lemma events_log upd ev w w' :
  tame upd → sane w →
  for_each ev (λ event : string,
    if bool_decide (event = "eat"%string) then on_eat
    else if bool_decide (event = "die"%string) then Nested.on_die upd
    else mret tt) w = GRet tt w' →
  sane w' ∧ ∃ cs, calls w' = calls w ++ cs ∧ (button_update ∉ cs → cs = []).
Proof.
  intros Hupd. revert w. induction ev as [|event ev IH]; intros w Hw Hrun.
  - injection Hrun as <-. split; [done|]. exists [].
    split; [by rewrite app_nil_r|done].
  - cbn [for_each] in Hrun. rewrite grun_bind in Hrun.
    destruct (bool_decide (event = "eat"%string)).
    { rewrite on_eat_run in Hrun.
      apply IH in Hrun; [|destruct (interval (gui w) >? 10); [|done];
                          by destruct Hw].
      destruct Hrun as [Hw' (cs & Hcs & Hno)]. split; [done|]. exists cs.
      split; [|done]. rewrite Hcs. by destruct (interval (gui w) >? 10). }
    destruct (bool_decide (event = "die"%string)).
    + rewrite nested_on_die_run in Hrun.
      destruct (first_hit (fresh 30 30) (draws w)) as [[fp t']|] eqn:Hhit;
        [|done].
      set (w1 := mkWorld _ _ t') in Hrun.
      assert (sane w1) as Hw1.
      { split; cbn; [by eapply fresh_game_reachable|].
        apply dir_range. unfold NORTH. lia. }
      destruct (Hupd w1 Hw1) as [_ Hret].
      destruct (upd w1) as [[] w2|e w2|] eqn:E; [|done|done].
      destruct (Hret w2 eq_refl) as [Hw2 [cs2 Hcs2]].
      apply IH in Hrun; [|done].
      destruct Hrun as [Hw' (cs & Hcs & Hno)]. split; [done|].
      eexists. split.
      * rewrite Hcs. cbn [calls]. rewrite Hcs2. unfold w1. cbn [calls].
        rewrite <- !app_assoc. reflexivity.
      * intros Hnot. exfalso. apply Hnot. cbn. right. by left.
    + unfold mret, G_ret in Hrun. by apply IH in Hrun.
Qed.

Lemma for_each_ext {A} (l : list A) (f g : A → G unit) w :
  (∀ x w, f x w = g x w) → for_each l f w = for_each l g w.
Proof.
  intros Hfg. revert w. induction l as [|x l IH]; intros w; [done|].
  cbn [for_each]. rewrite !grun_bind, Hfg.
  by destruct (g x w) as [[] w'|e w'|].
Qed.

(** When nothing is pending at [update()], the handlers are the plain
    ones. *)
Lemma quiet_on_die w : Nested.on_die (Nested.update Nested.Quiet) w = on_die w.
Proof.
  rewrite nested_on_die_run, on_die_run.
  destruct (first_hit (fresh 30 30) (draws w)) as [[fp t']|]; [|done].
  cbn [Nested.update]. unfold mret at 1, G_ret at 1. cbn [gui calls draws].
  by rewrite <- app_assoc.
Qed.

Lemma quiet_handlers h w :
  Nested.run_handler (Nested.update Nested.Quiet) h w =
  match h with
  | Nested.Tick => _tick w
  | Nested.Key event => _on_key event w
  | Nested.Button => _on_button w
  end.
Proof.
  assert (∀ v w, Nested.paused_setter (Nested.update Nested.Quiet) v w
                 = paused_setter v w) as Hset.
  { intros v w0. by rewrite nested_paused_setter_run, paused_setter_run. }
  destruct h as [|event|]; cbn [Nested.run_handler].
  - rewrite nested_tick_unfold, tick_unfold. cbv zeta.
    destruct (__paused (gui w)); [done|].
    destruct (move _ _) as [ev s|e s|]; [|done..].
    rewrite !grun_bind.
    rewrite (for_each_ext ev _
               (λ event : string,
                  if bool_decide (event = "eat"%string) then on_eat
                  else if bool_decide (event = "die"%string) then on_die
                  else mret tt)); [done|].
    intros x w0. destruct (bool_decide (x = "eat"%string)); [done|].
    destruct (bool_decide (x = "die"%string)); [|done]. apply quiet_on_die.
  - unfold Nested._on_key, _on_key. rewrite !grun_bind.
    repeat match goal with
    | |- context [if ?b || ?c then _ else _] => destruct (b || c)
    | |- context [if bool_decide ?P then _ else _] => destruct (bool_decide P)
    end; try done.
    all: unfold paused; by rewrite !grun_getg, Hset.
  - unfold Nested._on_button, _on_button, paused.
    by rewrite !grun_getg, !grun_bind, Hset.
Qed.

(** X17.  From a window whose map is a reachable game and whose direction
    is one of the four, no handler raises, whatever handlers [update()]
    runs inside it and to whatever depth, and a handler that returns
    leaves such a window again: [move] is never given a value that is not
    a direction.  A key other than the space bar, and the space bar
    pressed with an arrow's keysym, makes no call of [update()]:
    [_on_key] returns and leaves the map, the tape, the paused flag, the
    interval and the text as they were.  When nothing is
    pending at [update()], [_on_button] returns with the paused flag
    flipped and the map and the tape as they were. *)
Theorem handlers_never_raise (s : Nested.schedule) (h : Nested.handler)
    (w : world) :
  sane w →
  (∀ e w', Nested.run_handler (Nested.update s) h w ≠ GRaise e w') ∧
  (∀ w', Nested.run_handler (Nested.update s) h w = GRet tt w' → sane w') ∧
  (∀ event,
     char event ≠ " " ∨ keysym event ∈ ["Up"; "Right"; "Down"; "Left"] →
     ∃ w', Nested._on_key (Nested.update s) event w = GRet tt w' ∧
           map (gui w') = map (gui w) ∧ draws w' = draws w ∧
           __paused (gui w') = __paused (gui w) ∧
           interval (gui w') = interval (gui w) ∧
           text (gui w') = text (gui w)) ∧
  (∃ w', Nested._on_button (Nested.update Nested.Quiet) w = GRet tt w' ∧
         map (gui w') = map (gui w) ∧ draws w' = draws w ∧
         __paused (gui w') = negb (__paused (gui w))).
Proof.
  intros Hw. pose proof Hw as [Hreach Hd].
  pose proof (reachable_wf _ Hreach) as Hwf.
  assert (tame (Nested.run_handler (Nested.update s) h)) as Htame.
  { pose proof (tame_update s) as Hs. destruct h; cbn [Nested.run_handler].
    - by apply tame_tick.
    - by apply tame_on_key.
    - by apply tame_on_button. }
  destruct (Htame w Hw) as [H1 H2]. split_and!.
  - done.
  - intros w' Hrun. by destruct (H2 w' Hrun).
  - intros event Hkey. unfold Nested._on_key. rewrite grun_bind.
    destruct (bool_decide (char event = "w")
              || bool_decide (keysym event = "Up")) eqn:E1;
      [|destruct (bool_decide (char event = "d")
                  || bool_decide (keysym event = "Right")) eqn:E2;
        [|destruct (bool_decide (char event = "s")
                    || bool_decide (keysym event = "Down")) eqn:E3;
          [|destruct (bool_decide (char event = "a")
                      || bool_decide (keysym event = "Left")) eqn:E4;
            [|destruct (bool_decide (char event = " ")) eqn:E5]]]].
    1-4, 6: unfold setg, mret, G_ret; cbv beta iota;
      rewrite draw_drawn by done; by eexists.
    exfalso.
    apply orb_false_iff in E1 as [_ E1%bool_decide_eq_false].
    apply orb_false_iff in E2 as [_ E2%bool_decide_eq_false].
    apply orb_false_iff in E3 as [_ E3%bool_decide_eq_false].
    apply orb_false_iff in E4 as [_ E4%bool_decide_eq_false].
    apply bool_decide_eq_true in E5.
    destruct Hkey as [Hc|Hin]; [done|].
    repeat (apply elem_of_cons in Hin as [Hin|Hin]; [done|]).
    by apply elem_of_nil in Hin.
  - unfold Nested._on_button, paused.
    rewrite grun_getg, grun_bind, nested_paused_setter_run.
    cbn [Nested.update]. unfold mret at 1, G_ret at 1.
    rewrite draw_drawn by done. by eexists.
Qed.

Lemma handlers_never_raise_witness :
  sane small_window ∧
  match Nested.run_handler
          (Nested.update (Nested.Run Nested.Tick Nested.Quiet Nested.Quiet))
          Nested.Button small_window
  with
  | GRet _ w' => sane w'
  | GRaise _ _ => False
  | GStarved => True
  end.
Proof.
  split; [apply small_window_sane|].
  destruct (handlers_never_raise
              (Nested.Run Nested.Tick Nested.Quiet Nested.Quiet)
              Nested.Button small_window small_window_sane)
    as (H1 & H2 & _).
  destruct (Nested.run_handler _ _ _) as [[] w'|e w'|] eqn:E.
  - by apply H2.
  - by apply (H1 e w').
  - exact I.
Defined.

Lemma drawn_no_update g : button_update ∉ drawn g.
Proof.
  unfold drawn.
  intros [?|[Hp|?%list_elem_of_singleton]%elem_of_app]%elem_of_cons;
    [done| |done].
  by apply picture_rect in Hp as (? & ? & ? & ? & ? & ?).
Qed.

(** One tick of [small_window]: the snake steps north on an empty cell. *)
Lemma small_tick :
  ∃ w', Nested._tick (Nested.update Nested.Quiet) small_window = GRet tt w' ∧
        calls w' = master_after 500 :: drawn (gui w').
Proof.
  rewrite nested_tick_unfold. cbv zeta.
  change (__paused (gui small_window)) with false. cbv iota.
  change (move (direction (gui small_window))
            (map (gui small_window), draws small_window))
    with (move NORTH (corner33, [])).
  rewrite top33_step. cbn [for_each fst snd calls]. rewrite grun_bind.
  unfold mret at 1, G_ret at 1.
  rewrite draw_drawn by (apply reachable_wf, top33_reachable).
  by eexists.
Qed.

(** X18.  A [_tick] that returns has, before anything else, scheduled a
    further tick with the interval the window had before: a speed-up
    earned by this tick takes effect one tick later.  Unless the tick has
    called [update()], which only a dying tick does and where pending
    ticks may run, that is the only tick it schedules.  When the window
    is paused, it is all the tick does. *)
Theorem tick_schedules (s : Nested.schedule) (w w' : world) :
  sane w →
  Nested._tick (Nested.update s) w = GRet tt w' →
  ∃ cs,
    calls w' = calls w ++ master_after (interval (gui w)) :: cs ∧
    (button_update ∉ cs → ∀ ms, master_after ms ∉ cs) ∧
    (__paused (gui w) = true →
     cs = [] ∧ gui w' = gui w ∧ draws w' = draws w).
Proof.
  intros Hw Hrun. rewrite nested_tick_unfold in Hrun. cbv zeta in Hrun.
  destruct (__paused (gui w)) eqn:Hp.
  - injection Hrun as <-. exists []. split_and!; [done| |done].
    intros _ ms. apply not_elem_of_nil.
  - pose proof (sane_move w Hw) as Hmove. unfold on_map in Hmove.
    destruct (move _ _) as [ev [m' t']|e st|]; [|done|done].
    destruct Hmove as [Hw1 _]. cbn [fst snd calls] in *.
    rewrite grun_bind in Hrun.
    set (w1 := mkWorld (set_map m' (gui w)) _ t') in *.
    assert (sane w1) as Hw1' by done.
    destruct (for_each ev _ w1) as [[] w2|e w2|] eqn:Hev; [|done|done].
    destruct (events_log _ _ _ _ (tame_update s) Hw1' Hev)
      as [Hw2 (cs & Hcs & Hno)].
    rewrite draw_drawn in Hrun by (apply reachable_wf; by destruct Hw2).
    injection Hrun as <-. cbn [calls]. rewrite Hcs. unfold w1. cbn [calls].
    exists (cs ++ drawn (gui w2)). split_and!.
    + by rewrite <- !app_assoc.
    + intros Hnot ms [Hin|Hin]%elem_of_app.
      * rewrite Hno in Hin; [by apply elem_of_nil in Hin|].
        intros ?. apply Hnot, elem_of_app. by left.
      * by apply drawn_no_after in Hin.
    + done.
Qed.

Lemma tick_schedules_witness :
  ∃ w' cs,
    Nested._tick (Nested.update Nested.Quiet) small_window = GRet tt w' ∧
    calls w' = calls small_window ++ master_after 500 :: cs ∧
    (∀ ms, master_after ms ∉ cs).
Proof.
  destruct small_tick as (w' & Hrun & Hcalls).
  destruct (tick_schedules Nested.Quiet small_window w' small_window_sane Hrun)
    as (cs & H1 & H2 & _).
  exists w', cs. split_and!; [exact Hrun|exact H1|].
  apply H2. rewrite Hcalls in H1. injection H1 as <-. apply drawn_no_update.
Defined.

(** A dying tick when nothing is pending at [update()]. *)
Lemma nested_tick_die_quiet w s :
  __paused (gui w) = false →
  move (direction (gui w)) (map (gui w), draws w) = Ret ["die"%string] s →
  Nested._tick (Nested.update Nested.Quiet) w =
  match first_hit (fresh 30 30) s.2 with
  | Some (fp, t') =>
      let g' := mkGUI (scale (gui w)) (put fp FOOD (fresh 30 30))
                  ("Game over! Score: " +:+ pretty (length s.1 - 1))
                  true NORTH 500 in
      GRet tt
        (mkWorld g'
           (calls w ++ [master_after (interval (gui w));
                        StringVar_set "Start"; button_update;
                        button_config "Pause"] ++ drawn g')
           t')
  | None => GStarved
  end.
Proof.
  intros Hp Hm. rewrite (nested_tick_die _ w s Hp Hm).
  destruct (first_hit (fresh 30 30) s.2) as [[fp t']|] eqn:Hhit; [|done].
  cbn [Nested.update]. unfold mret at 1, G_ret at 1.
  rewrite draw_drawn
    by (cbn [gui map]; eapply reachable_wf, fresh_game_reachable; done).
  cbn [gui calls draws]. by rewrite <- !app_assoc.
Qed.

(** X19.  A tick on which [move] reports "die" schedules the next tick
    and then, in [on_die], shows "Game over! Score: " followed by the
    length of the snake minus one, starts a fresh 30 by 30 game with a
    snake of one cell at [(15, 15)], goes back to direction North and
    interval 500 and pauses; only then does it call [update()], and what
    the tick returns is what [update()], the change of the button text
    and [draw] make of that window.  When the draws do not let the new
    game place its food the tick does not return.  When nothing is
    pending at [update()], the window the tick leaves is that one, with
    the picture drawn, and the tick returns exactly when the draws place
    the food. *)
Theorem tick_game_over (upd : G unit) (w : world) (s : state) :
  __paused (gui w) = false →
  move (direction (gui w)) (map (gui w), draws w) = Ret ["die"%string] s →
  (off_center 30 30 s.2 = false → Nested._tick upd w = GStarved) ∧
  (off_center 30 30 s.2 = true →
   ∃ w1,
     Nested._tick upd w = (upd;; tk (button_config "Pause");; draw) w1 ∧
     text (gui w1) = "Game over! Score: " +:+ pretty (length s.1 - 1) ∧
     __paused (gui w1) = true ∧
     direction (gui w1) = NORTH ∧ interval (gui w1) = 500 ∧
     scale (gui w1) = scale (gui w) ∧
     reachable (map (gui w1)) ∧
     width (map (gui w1)) = 30 ∧ height (map (gui w1)) = 30 ∧
     length (map (gui w1)) = 1 ∧
     head (map (gui w1)) = (15, 15) ∧ tail (map (gui w1)) = (15, 15) ∧
     calls w1 = calls w ++ [master_after (interval (gui w));
                            StringVar_set "Start"; button_update]) ∧
  (∀ w', Nested._tick (Nested.update Nested.Quiet) w = GRet tt w' →
     text (gui w') = "Game over! Score: " +:+ pretty (length s.1 - 1) ∧
     __paused (gui w') = true ∧
     direction (gui w') = NORTH ∧ interval (gui w') = 500 ∧
     reachable (map (gui w')) ∧
     width (map (gui w')) = 30 ∧ height (map (gui w')) = 30 ∧
     length (map (gui w')) = 1 ∧
     head (map (gui w')) = (15, 15) ∧ tail (map (gui w')) = (15, 15) ∧
     calls w' = calls w ++ [master_after (interval (gui w));
                            StringVar_set "Start"; button_update;
                            button_config "Pause"] ++ drawn (gui w')) ∧
  (off_center 30 30 s.2 = true ↔
   ∃ w', Nested._tick (Nested.update Nested.Quiet) w = GRet tt w').
Proof.
  intros Hp Hm.
  pose proof (λ upd, nested_tick_die upd w s Hp Hm) as Ht.
  pose proof (off_center_hit 30 30 s.2 ltac:(lia) ltac:(lia)) as Hoff.
  pose proof (nested_tick_die_quiet w s Hp Hm) as Hq.
  split_and!.
  - intros Hno. rewrite Ht.
    destruct (first_hit (fresh 30 30) s.2) as [[fp t']|] eqn:Hhit; [|done].
    assert (off_center 30 30 s.2 = true) by (by apply Hoff). congruence.
  - intros [[fp t'] Hhit]%Hoff.
    exists (mkWorld
              (mkGUI (scale (gui w)) (put fp FOOD (fresh 30 30))
                 ("Game over! Score: " +:+ pretty (length s.1 - 1))
                 true NORTH 500)
              (calls w ++ [master_after (interval (gui w));
                           StringVar_set "Start"; button_update])
              t').
    split_and!.
    + rewrite Ht, Hhit, grun_bind.
      destruct (upd _) as [[] w2|e w2|]; [|reflexivity..].
      by rewrite grun_tk.
    + reflexivity.
    + reflexivity.
    + reflexivity.
    + reflexivity.
    + reflexivity.
    + cbn [gui map]. by eapply fresh_game_reachable.
    + reflexivity.
    + reflexivity.
    + reflexivity.
    + reflexivity.
    + reflexivity.
    + reflexivity.
  - intros w' Hrun.
    destruct (first_hit (fresh 30 30) s.2) as [[fp t'']|] eqn:Hhit;
      [|congruence].
    rewrite Hq in Hrun. injection Hrun as <-.
    split_and!; try reflexivity. by eapply fresh_game_reachable.
  - rewrite Hoff. split.
    + intros [[fp t''] Hhit]. rewrite Hhit in Hq. by eexists.
    + intros [w' Hrun].
      destruct (first_hit (fresh 30 30) s.2) as [[fp t'']|];
        [by eexists|congruence].
Qed.

Lemma tick_game_over_witness :
  ∃ w', Nested._tick (Nested.update Nested.Quiet) doomed_window = GRet tt w' ∧
        __paused (gui w') = true ∧ length (map (gui w')) = 1.
Proof.
  destruct (tick_game_over (Nested.update Nested.Quiet) doomed_window
              (top33, [1; 1]) eq_refl eq_refl) as (_ & _ & Hfacts & Hret).
  destruct (proj1 Hret) as [w' Hrun]; [by vm_compute|].
  exists w'. destruct (Hfacts w' Hrun) as (_ & Hpaused & _ & _ & _ & _ & _ & Hlen & _).
  split_and!; [exact Hrun|exact Hpaused|exact Hlen].
Defined.
